(** * Location resolution and geocoding pipeline of Base_de_donnee_musee

    A shallow embedding of the column normaliser and location parser of
    [src/carte.py] and [src/pages/carte_musees.py], and of the geocoding
    script [src/pages/geocoding.py], followed by the properties the
    specification states about them.

    Conventions.
    - A Python [str] is a list of Unicode code points ([list N]); [py] turns
      an ASCII literal into such a list.
    - A cell of a pandas object column is [option (list N)]: [None] stands
      for Python's [None] and for NaN, the values [pd.isna] recognises.
    - A Python [float] is a primitive binary64 float.
    - A dict is a [gmap]. *)

From Stdlib Require Import Floats.PrimFloat.
From Stdlib Require Import NArith ZArith String Ascii DecimalString.
From stdpp Require Import gmap list.

Set Warnings "-inexact-float,-clear-no-such-hyp".

Open Scope N_scope.

(** ** Python strings *)

Abbreviation pystr := (list N).
Abbreviation cell := (option (list N)).

(** An ASCII literal as a Python string. *)
Definition py (s : string) : pystr :=
  List.map N_of_ascii (list_ascii_of_string s).

(** [str.isspace] on one character: the code points whose general category
    is Zs or whose bidirectional class is WS, B or S. *)
Definition Py_UNICODE_ISSPACE (c : N) : bool :=
  ((0x09 <=? c) && (c <=? 0x0D)) || ((0x1C <=? c) && (c <=? 0x20))
  || (c =? 0x85) || (c =? 0xA0) || (c =? 0x1680)
  || ((0x2000 <=? c) && (c <=? 0x200A))
  || (c =? 0x2028) || (c =? 0x2029) || (c =? 0x202F) || (c =? 0x205F)
  || (c =? 0x3000).

(** [s.lstrip()], [s.rstrip()] and [s.strip()] without argument. *)
Fixpoint lstrip (s : pystr) : pystr :=
  match s with
  | c :: s' => if Py_UNICODE_ISSPACE c then lstrip s' else s
  | [] => []
  end.

Definition rstrip (s : pystr) : pystr := rev (lstrip (rev s)).

Definition strip (s : pystr) : pystr := rstrip (lstrip s).

(** [s.split(sep)] for a one-character separator: one more piece than there
    are separators, empty pieces kept. *)
Fixpoint split (sep : N) (s : pystr) : list pystr :=
  match s with
  | [] => [[]]
  | c :: s' =>
      if c =? sep then [] :: split sep s'
      else match split sep s' with
           | p :: ps => (c :: p) :: ps
           | [] => [[c]]
           end
  end.

(** [s.split(sep, 1)]: cut at the first separator only. *)
Fixpoint split1 (sep : N) (s : pystr) : list pystr :=
  match s with
  | [] => [[]]
  | c :: s' =>
      if c =? sep then [[]; s']
      else match split1 sep s' with
           | p :: ps => (c :: p) :: ps
           | [] => [[c]]
           end
  end.

(** [sep.join(parts)]. *)
Fixpoint join (sep : pystr) (parts : list pystr) : pystr :=
  match parts with
  | [] => []
  | [p] => p
  | p :: ps => p ++ sep ++ join sep ps
  end.

(** [s.replace(old, new)] for a one-character [old]. *)
Definition replace (old : N) (new : pystr) (s : pystr) : pystr :=
  List.flat_map (fun c => if c =? old then new else [c]) s.

(** [ch in s] for a one-character [ch]. *)
Definition contains (ch : N) (s : pystr) : bool :=
  List.existsb (N.eqb ch) s.

(** Truth value of a string: the empty string is falsy. *)
Definition nonempty (s : pystr) : bool :=
  match s with [] => false | _ => true end.

(** ** Exceptions and results *)

(** An instance of Python's [Exception] class, the class the handler of
    [get_city_coordinates] names: its class name and message. Signals that
    are not instances of it ([KeyboardInterrupt], [SystemExit]) stop the
    interpreter from outside and are not part of the model. *)
Record Exception := mkException { exc_class : string; exc_message : pystr }.

Definition IndexError : Exception := mkException "IndexError" (py "list index out of range").
Definition ValueError : Exception := mkException "ValueError" (py "not enough values to unpack").

Inductive result (A : Type) : Type :=
| Ok (a : A)
| Raise (e : Exception).
Arguments Ok {A} a.
Arguments Raise {A} e.

#[global] Instance result_ret : MRet result := fun A a => Ok a.

#[global] Instance result_bind : MBind result := fun A B k r =>
  match r with
  | Ok a => k a
  | Raise e => Raise e
  end.

(** [l[i]] for a Python list: negative indices count from the end, an index
    out of range raises [IndexError]. *)
Definition getitem {A} (l : list A) (i : Z) : result A :=
  let n := Z.of_nat (length l) in
  let j := (if i <? 0 then n + i else i)%Z in
  if (j <? 0)%Z then Raise IndexError
  else match nth_error l (Z.to_nat j) with
       | Some a => Ok a
       | None => Raise IndexError
       end.

(** [a, b, *rest = l]: needs at least two items. *)
Definition unpack2_star {A} (l : list A) : result (A * A * list A) :=
  match l with
  | a :: b :: rest => Ok (a, b, rest)
  | _ => Raise ValueError
  end.

(** ** Column-name normalisation *)

(** The part of Python's Unicode support that [_normalize_col] calls:
    [unicodedata.normalize("NFKD", s)], [unicodedata.combining(ch)] and
    [str.lower]. The tables behind them belong to the interpreter, not to the
    repository, so the normaliser takes them as an interface. *)
Class Unicode := {
  normalize_NFKD : pystr -> pystr;
  combining : N -> N;
  lower : pystr -> pystr
}.

(** The characters line 17 of [src/carte.py] replaces, in its order:
    space / > - . , ; : ( ) single quote, double quote. *)
Definition separators : list N :=
  [32; 47; 62; 45; 46; 44; 59; 58; 40; 41; 39; 34].

Definition underscore : N := 95.

(** [src/carte.py], lines 12-20; [src/pages/carte_musees.py], lines 29-45,
    has the same body. *)
Definition _normalize_col {U : Unicode} (name : pystr) : pystr :=
  let s := name in
  let s := normalize_NFKD s in
  let s := List.filter (fun ch => combining ch =? 0) s in
  let s := strip (lower s) in
  let s := fold_left (fun s ch => replace ch [underscore] s) separators s in
  let parts := List.filter nonempty (split underscore s) in
  join [underscore] parts.

(** The two halves of [_normalize_col]: the Unicode folding of lines 14-16
    (before [strip]) and the separator handling of lines 17-20. *)
Definition unicode_fold {U : Unicode} (s : pystr) : pystr :=
  lower (List.filter (fun ch => combining ch =? 0) (normalize_NFKD s)).

Definition collapse (s : pystr) : pystr :=
  let s := fold_left (fun s ch => replace ch [underscore] s) separators s in
  join [underscore] (List.filter nonempty (split underscore s)).

(** *** Shapes of names *)

Definition is_separator (c : N) : bool := List.existsb (N.eqb c) separators.

(** [a-z0-9] and [a-z0-9_]. *)
Definition lower_alnum (c : N) : bool :=
  ((97 <=? c) && (c <=? 122)) || ((48 <=? c) && (c <=? 57)).

Definition canonical_char (c : N) : bool := lower_alnum c || (c =? underscore).

(** [segmented P s]: [s] is empty, or is made of non-empty segments of
    characters satisfying [P], none of them an underscore, joined by single
    underscores. With [P := lower_alnum] this is the pattern
    segment(_segment)* of lower-case alphanumeric segments. *)
Definition segmented (P : N -> bool) (s : pystr) : bool :=
  match s with
  | [] => true
  | _ => List.forallb (fun p => nonempty p && List.forallb P p)
                      (split underscore s)
  end.

(** A part of a collapsed name: not empty, and made of characters that are
    neither separators nor underscores (and satisfy [P]). *)
Definition part_of (P : N -> Prop) (p : pystr) : Prop :=
  p <> [] /\ Forall (fun c => is_separator c = false /\ c <> underscore /\ P c) p.

(** The characters [_normalize_col] is written for: ASCII letters and
    digits, the underscore and the separators. *)
Definition name_char (c : N) : bool :=
  lower_alnum c || ((65 <=? c) && (c <=? 90)) || (c =? underscore)
  || is_separator c.

(** ASCII, and no white space but the space character. *)
Definition plain_ascii (c : N) : bool :=
  (c <? 128) && (negb (Py_UNICODE_ISSPACE c) || (c =? 32)).

(** Lower-case ASCII without white space: what [lower] and [strip] leave
    alone. *)
Definition settled (c : N) : bool :=
  (c <? 128) && negb ((65 <=? c) && (c <=? 90)) && negb (Py_UNICODE_ISSPACE c).

(** *** The tables on Basic Latin and Latin-1 *)

Definition ascii_lower (c : N) : N :=
  if (65 <=? c) && (c <=? 90) then c + 32 else c.

(** Compatibility decompositions of the code points below U+0100. *)
Definition latin1_decomposition : list (N * list N) := [
  (160, [32]); (168, [32; 776]); (170, [97]); (175, [32; 772]); (178, [50]);
  (179, [51]); (180, [32; 769]); (181, [956]); (184, [32; 807]); (185, [49]);
  (186, [111]); (188, [49; 8260; 52]); (189, [49; 8260; 50]);
  (190, [51; 8260; 52]); (192, [65; 768]); (193, [65; 769]);
  (194, [65; 770]); (195, [65; 771]); (196, [65; 776]); (197, [65; 778]);
  (199, [67; 807]); (200, [69; 768]); (201, [69; 769]); (202, [69; 770]);
  (203, [69; 776]); (204, [73; 768]); (205, [73; 769]); (206, [73; 770]);
  (207, [73; 776]); (209, [78; 771]); (210, [79; 768]); (211, [79; 769]);
  (212, [79; 770]); (213, [79; 771]); (214, [79; 776]); (217, [85; 768]);
  (218, [85; 769]); (219, [85; 770]); (220, [85; 776]); (221, [89; 769]);
  (224, [97; 768]); (225, [97; 769]); (226, [97; 770]); (227, [97; 771]);
  (228, [97; 776]); (229, [97; 778]); (231, [99; 807]); (232, [101; 768]);
  (233, [101; 769]); (234, [101; 770]); (235, [101; 776]); (236, [105; 768]);
  (237, [105; 769]); (238, [105; 770]); (239, [105; 776]); (241, [110; 771]);
  (242, [111; 768]); (243, [111; 769]); (244, [111; 770]); (245, [111; 771]);
  (246, [111; 776]); (249, [117; 768]); (250, [117; 769]); (251, [117; 770]);
  (252, [117; 776]); (253, [121; 769]); (255, [121; 776])
].

Definition latin1_decompose (c : N) : list N :=
  match List.find (fun e => fst e =? c) latin1_decomposition with
  | Some e => snd e
  | None => [c]
  end.

(** Canonical combining class of the marks those decompositions produce. *)
Definition latin1_combining (c : N) : N :=
  if ((0x300 <=? c) && (c <=? 0x304)) || (c =? 0x308) || (c =? 0x30A) then 230
  else if c =? 0x327 then 202
  else 0.

Definition latin1_lower (c : N) : N :=
  if (65 <=? c) && (c <=? 90) then c + 32
  else if (0xC0 <=? c) && (c <=? 0xDE) && negb (c =? 0xD7) then c + 32
  else c.

(** Python's tables restricted to strings of code points below U+0100 (on
    such strings no mark follows another one, so NFKD has nothing to
    reorder). Other code points are left alone: this instance says nothing
    about them. *)
Definition latin1 : Unicode := {|
  normalize_NFKD s := List.flat_map latin1_decompose s;
  combining := latin1_combining;
  lower s := List.map latin1_lower s
|}.

(** The column name "Période / (Époque)", with its accents. *)
Definition periode_epoque : list N :=
  [80; 233; 114; 105; 111; 100; 101; 32; 47; 32; 40; 201; 112; 111; 113; 117;
   101; 41].

(** What every faithful instance does on ASCII: no ASCII character
    decomposes or is a combining mark, and only A-Z change under [lower]. *)
Class AsciiFaithful (U : Unicode) : Prop := {
  NFKD_ascii : forall s, Forall (fun c => c < 128) s -> normalize_NFKD s = s;
  combining_ascii : forall c, c < 128 -> combining c = 0;
  lower_ascii : forall s, Forall (fun c => c < 128) s ->
                          lower s = List.map ascii_lower s
}.

(** An accented character, in the words of the specification: one whose
    compatibility decomposition holds a combining mark (a combining mark
    itself included). *)
Definition accented {U : Unicode} (c : N) : bool :=
  List.existsb (fun d => negb (combining d =? 0)) (normalize_NFKD [c]).



(** ** Location parsing *)

(** The [pd.Series] with keys [pays], [ville], [musee] that both versions of
    [parse_location] build. *)
Record ParsedLocation := mkParsed {
  pays : cell;
  ville : cell;
  musee : cell
}.

Definition all_null : ParsedLocation := mkParsed None None None.

Definition comma : N := 44.

(** [[p.strip() for p in loc.split(",")]] *)
Definition stripped_parts (loc : pystr) : list pystr :=
  List.map strip (split comma loc).

(** The number of comma-delimited segments of a location; a missing
    location has none. *)
Definition segments (loc : cell) : nat :=
  match loc with
  | None => 0
  | Some s => length (split comma s)
  end.

(** A field as the parsers hand it out: null, or a string that [strip]
    leaves alone and that holds no comma. *)
Definition clean_field (x : cell) : Prop :=
  match x with
  | None => True
  | Some f => strip f = f /\ Forall (fun c => c <> comma) f
  end.

(** [src/carte.py], lines 22-35. *)
Module Carte.

Definition parse_location (loc : cell) : result ParsedLocation :=
  match loc with
  | None => Ok all_null
  | Some loc =>
      let parts := stripped_parts loc in
      if (2 <=? length parts)%nat then
        '(musee, ville, rest) ← unpack2_star parts;
        pays ← (if negb (length rest =? 0)%nat
                then r ← getitem rest (-1); Ok (Some r)
                else Ok None);
        Ok (mkParsed pays (Some ville) (Some musee))
      else if (length parts =? 1)%nat then
        musee ← getitem parts 0;
        Ok (mkParsed None None (Some musee))
      else Ok all_null
  end.

End Carte.

(** [src/pages/carte_musees.py], lines 48-69. *)
Module CarteMusees.

Definition parse_location (loc : cell) : result ParsedLocation :=
  match loc with
  | None => Ok all_null
  | Some loc =>
      let parts := stripped_parts loc in
      if (2 <=? length parts)%nat then
        musee ← getitem parts 0;
        ville ← getitem parts 1;
        pays ← (if (3 <=? length parts)%nat
                then p ← getitem parts 2; Ok (Some p)
                else Ok None);
        Ok (mkParsed pays (Some ville) (Some musee))
      else if (length parts =? 1)%nat then
        musee ← getitem parts 0;
        Ok (mkParsed None None (Some musee))
      else Ok all_null
  end.

End CarteMusees.


(** ** The geocoding script, [src/pages/geocoding.py] *)

Module Geocoding.

(** What the script reads of a [geopy] location. *)
Record Location := mkLocation { latitude : float; longitude : float }.

(** A pair [(lat, lon)]; [None] is Python's [None]. *)
Abbreviation coord := (option float * option float)%type.

Definition gt_sign : N := 62.

(** Lines 15-24. *)
Definition extract_city (loc : cell) : result cell :=
  match loc with
  | None => Ok None
  | Some loc =>
      loc ← (if contains gt_sign loc
             then tail ← getitem (split1 gt_sign loc) 1; Ok (strip tail)
             else Ok loc);
      let parts := stripped_parts loc in
      if (2 <=? length parts)%nat
      then city ← getitem parts 1; Ok (Some city)
      else Ok None
  end.

(** Lines 31-43. *)
Definition manual_fix_villes : gmap (list N) (float * float) :=
  list_to_map [
    (py "Versailles", (48.804865, 2.120355)%float);
    (py "Paris", (48.856613, 2.352222)%float);
    (py "Nancy", (48.692054, 6.184417)%float);
    (py "Bayonne", (43.49255, -1.47443)%float);
    (py "Stockholm", (59.329323, 18.068581)%float);
    (py "Berlin", (52.520008, 13.404954)%float);
    (py "Mulhouse", (47.747, 7.335)%float);
    (py "Meudon", (48.8147, 2.2518)%float);
    (py "Amiens", (49.895, 2.295)%float);
    (py "Monaco", (43.7384, 7.4246)%float)
  ].

(** The arguments line 49 gives to [RateLimiter]. *)
Record RateLimiter := {
  min_delay_seconds : N;
  max_retries : N;
  error_wait_seconds : N
}.

Definition geocode_limits : RateLimiter :=
  {| min_delay_seconds := 1; max_retries := 3; error_wait_seconds := 5 |}.

(** The lines the script prints. *)
Inductive diagnostic :=
| MANUAL_FIX (city : pystr) (lat lon : float)
| OK (city : pystr) (lat lon : float)
| NOT_FOUND (city : pystr)
| ERROR (city : pystr) (e : Exception).

(** Line 57: [f"{city}, {country}" if country else city]; a missing or empty
    country is falsy. *)
Definition key (city : pystr) (country : cell) : pystr :=
  match country with
  | Some (c :: country') => city ++ py ", " ++ (c :: country')
  | _ => city
  end.

(** [dropna()] of a column. *)
Definition dropna (col : list cell) : list cell :=
  List.filter (fun x => match x with Some _ => true | None => false end) col.

(** [unique()] of a column: the distinct values in order of first
    appearance. *)
Fixpoint unique_from (seen : gset (option (list N))) (col : list cell) : list cell :=
  match col with
  | [] => []
  | x :: col' =>
      if bool_decide (x ∈ seen) then unique_from seen col'
      else x :: unique_from ({[x]} ∪ seen) col'
  end.

Definition unique (col : list cell) : list cell := unique_from ∅ col.

Section Resolver.

(** The state of everything outside the process (the geocoding service, the
    network, the clock). *)
Context {World : Type}.

(** The callable [geocode] of line 49, that is [geolocator.geocode] behind
    its rate limiter, as its caller sees it: on a query it returns a location
    or [None], or raises, and the world moves on. *)
Variable geocode : pystr -> World -> result (option Location) * World.

(** The state the script threads: the world, what it has printed, and two
    traces kept for the proofs, the queries handed to [geocode] and the
    arguments [get_city_coordinates] was called with, oldest first. *)
Record Env := mkEnv {
  world : World;
  stdout : list diagnostic;
  geocode_calls : list pystr;
  lookups : list cell
}.

Definition M (A : Type) : Type := Env -> result A * Env.

#[local] Instance M_ret : MRet M := fun A a env => (Ok a, env).

#[local] Instance M_bind : MBind M := fun A B k m env =>
  match m env with
  | (Ok a, env') => k a env'
  | (Raise e, env') => (Raise e, env')
  end.

(** [try: body  except Exception as e: handler e] *)
Definition try_except {A} (body : M A) (handler : Exception -> M A) : M A :=
  fun env =>
    match body env with
    | (Ok a, env') => (Ok a, env')
    | (Raise e, env') => handler e env'
    end.

Definition print (d : diagnostic) : M unit :=
  fun env => (Ok tt, mkEnv (world env) (stdout env ++ [d])
                           (geocode_calls env) (lookups env)).

Definition call_geocode (query : pystr) : M (option Location) :=
  fun env =>
    let (r, w) := geocode query (world env) in
    (r, mkEnv w (stdout env) (geocode_calls env ++ [query]) (lookups env)).

Definition enter_lookup (city : cell) : M unit :=
  fun env => (Ok tt, mkEnv (world env) (stdout env) (geocode_calls env)
                           (lookups env ++ [city])).

Definition lift {A} (r : result A) : M A := fun env => (r, env).

(** Lines 54-74. *)
Definition get_city_coordinates (city : cell) (country : cell) : M coord :=
  enter_lookup city;;
  match city with
  | None => mret (None, None)
  | Some city =>
      let key := key city country in
      match manual_fix_villes !! city with
      | Some (lat, lon) =>
          print (MANUAL_FIX city lat lon);;
          mret (Some lat, Some lon)
      | None =>
          try_except
            (let query := key in
             location ← call_geocode query;
             match location with
             | Some location =>
                 print (OK city (latitude location) (longitude location));;
                 mret (Some (latitude location), Some (longitude location))
             | None =>
                 print (NOT_FOUND city);;
                 mret (None, None)
             end)
            (fun e =>
               print (ERROR city e);;
               mret (None, None))
      end
  end.

(** Lines 80-84: the loop over [villes_unique] filling [coords_dict]. *)
Fixpoint resolve_loop (villes_unique : list cell)
    (coords_dict : gmap (option (list N)) coord) : M (gmap (option (list N)) coord) :=
  match villes_unique with
  | [] => mret coords_dict
  | ville :: rest =>
      '(lat, lon) ← get_city_coordinates ville None;
      resolve_loop rest (<[ville := (lat, lon)]> coords_dict)
  end.

(** Lines 79-84. *)
Definition resolve (ville_column : list cell) : M (gmap (option (list N)) coord) :=
  let villes_unique := unique (dropna ville_column) in
  resolve_loop villes_unique ∅.

(** [coords_dict.get(x, (None, None))] *)
Definition coords_get (coords_dict : gmap (option (list N)) coord) (x : cell) : coord :=
  default (None, None) (coords_dict !! x).

(** The columns the script reads and writes; the other columns of the CSV
    file are carried along untouched. *)
Record DataFrame := mkFrame {
  lieu_de_conservation : list cell;
  ville : list cell;
  latitude_column : list (option float);
  longitude_column : list (option float)
}.

(** Lines 89-90. *)
Definition assemble (ville_column : list cell)
    (coords_dict : gmap (option (list N)) coord) : list (option float) * list (option float) :=
  (List.map (fun x => fst (coords_get coords_dict x)) ville_column,
   List.map (fun x => snd (coords_get coords_dict x)) ville_column).

(** [Series.apply(f)]: [f] on every cell, in order; the first exception
    ends it. *)
Fixpoint apply {A B} (f : A -> result B) (col : list A) : result (list B) :=
  match col with
  | [] => Ok []
  | x :: col' =>
      y ← f x;
      ys ← apply f col';
      Ok (y :: ys)
  end.

(** The script from line 26 to line 90, on the column
    ["lieu de conservation"] of the file read at line 10. *)
Definition script (lieu : list cell) : M DataFrame :=
  ville_column ← lift (apply extract_city lieu);
  coords_dict ← resolve ville_column;
  let '(lat, lon) := assemble ville_column coords_dict in
  mret (mkFrame lieu ville_column lat lon).

Definition start (w : World) : Env := mkEnv w [] [] [].

End Resolver.

(** The set of distinct city keys of a column. *)
Definition cities (ville_column : list cell) : gset (list N) :=
  list_to_set (omap id ville_column).

(** The cities a run has to ask the service about: those of
    [villes_unique] that the override table does not hold. *)
Definition to_geocode (villes_unique : list cell) : list pystr :=
  omap (fun x : cell =>
          match x with
          | Some city =>
              match manual_fix_villes !! city with
              | Some _ => None
              | None => Some city
              end
          | None => None
          end) villes_unique.

(** A stand-in for the service, for running the script on examples: the
    world counts the requests served; "Lyon" is found, "Atlantis" is not,
    and any other query times out. *)
Definition GeocoderTimedOut : Exception :=
  mkException "GeocoderTimedOut" (py "Service timed out").

Definition demo_geocode (query : pystr) (served : nat)
    : result (option Location) * nat :=
  if bool_decide (query = py "Lyon")
  then (Ok (Some (mkLocation 45.7578137 4.8320114)), S served)
  else if bool_decide (query = py "Atlantis")
  then (Ok None, S served)
  else (Raise GeocoderTimedOut, S served).

End Geocoding.

(** ** What a run of the geocoding script should produce *)

(** The pair [get_city_coordinates] makes of an answer of the service. *)
Definition answer_coords (r : result (option Geocoding.Location))
    : option float * option float :=
  match r with
  | Ok (Some l) => (Some (Geocoding.latitude l), Some (Geocoding.longitude l))
  | _ => (None, None)
  end.

(** The coordinates of a city when the service answers [answer] to a query:
    the override table first, the service otherwise, nothing for a null
    city. *)
Definition expected_coords (answer : pystr -> result (option Geocoding.Location))
    (x : cell) : option float * option float :=
  match x with
  | None => (None, None)
  | Some city =>
      match Geocoding.manual_fix_villes !! city with
      | Some (lat, lon) => (Some lat, Some lon)
      | None => answer_coords (answer city)
      end
  end.

(** The words of an ASCII column name: its maximal runs of characters that
    are neither separators nor underscores, lower-cased. *)
Definition words (s : pystr) : list pystr :=
  List.filter nonempty
    (split underscore
       (List.map (fun c => if is_separator (ascii_lower c) then underscore
                           else ascii_lower c) s)).

(** ** More of Python: substrings, integers, ranges *)

(** [s.startswith(prefix)] *)
Fixpoint startswith (prefix s : pystr) : bool :=
  match prefix, s with
  | [], _ => true
  | p :: prefix', c :: s' => (p =? c) && startswith prefix' s'
  | _ :: _, [] => false
  end.

(** [old in s]: [old] occurs somewhere in [s]. *)
Fixpoint occurs (old s : pystr) : bool :=
  startswith old s
  || match s with
     | [] => false
     | _ :: s' => occurs old s'
     end.

(** [s.replace(old, new)] for a non-empty [old]: the occurrences of [old]
    are found from the left and do not overlap; [skip] counts the characters
    of an occurrence still to pass. *)
Fixpoint replace_from (old new : pystr) (skip : nat) (s : pystr) : pystr :=
  match s with
  | [] => []
  | c :: s' =>
      match skip with
      | S k => replace_from old new k s'
      | O =>
          if startswith old s
          then new ++ replace_from old new (length old - 1) s'
          else c :: replace_from old new 0 s'
      end
  end.

Definition replace_str (old new s : pystr) : pystr := replace_from old new 0 s.

(** [s.split(sep)] for a non-empty [sep] of any length. *)
Fixpoint split_from (sep : pystr) (skip : nat) (s : pystr) : list pystr :=
  match s with
  | [] => [[]]
  | c :: s' =>
      match skip with
      | S k => split_from sep k s'
      | O =>
          if startswith sep s
          then [] :: split_from sep (length sep - 1) s'
          else match split_from sep 0 s' with
               | p :: ps => (c :: p) :: ps
               | [] => [[c]]
               end
      end
  end.

Definition split_str (sep s : pystr) : list pystr := split_from sep 0 s.

(** [str(n)] for an integer. *)
Definition str_int (n : Z) : pystr := py (NilZero.string_of_int (Z.to_int n)).

Definition ZeroDivisionError : Exception :=
  mkException "ZeroDivisionError" (py "integer division or modulo by zero").

Definition RangeStepError : Exception :=
  mkException "ValueError" (py "range() arg 3 must not be zero").

(** [a // b] on integers: the floor of the quotient. *)
Definition floordiv (a b : Z) : result Z :=
  if (b =? 0)%Z then Raise ZeroDivisionError else Ok (a / b)%Z.

(** [list(range(start, stop, step))] *)
Definition py_range (start stop step : Z) : result (list Z) :=
  if (step =? 0)%Z then Raise RangeStepError
  else
    let n := (if (0 <? step)%Z
              then (stop - start + step - 1) / step
              else (start - stop - step - 1) / (- step))%Z in
    Ok (List.map (fun i => (start + Z.of_nat i * step)%Z) (seq 0 (Z.to_nat n))).

(** [{year: str(year) for year in years}] *)
Definition marks_of (years : list Z) : gmap Z (list N) :=
  fold_left (fun marks year => <[year := str_int year]> marks) years ∅.

(** ** Routing, [src/main.py] *)

Module Main.

(** What [display_page] returns: the layout of one of the three pages, or a
    [dcc.Location] that sends the browser to another path. *)
Inductive content :=
| DashboardOeuvresLayout
| CarteMuseesLayout
| AccueilLayout
| Location (pathname : pystr).

(** Lines 66-78. *)
Definition display_page (pathname : pystr) : content :=
  if bool_decide (pathname = py "/dashboard-oeuvres")
     || startswith (py "/dashboard-oeuvres/") pathname
  then DashboardOeuvresLayout
  else if bool_decide (pathname = py "/carte-musees") then CarteMuseesLayout
  else if bool_decide (pathname = py "/accueil") then AccueilLayout
  else Location (py "/accueil").

End Main.

(** ** The dashboard page, [src/pages/dashboard_oeuvres.py] *)

Module DashboardOeuvres.

(** Lines 338-339 of [redirect]: the path of a domain's button. *)
Definition domain_path (domaine : pystr) : pystr :=
  let domaine_encoded := replace 32 (py "%20") domaine in
  py "/dashboard-oeuvres/" ++ domaine_encoded.

(** Lines 226-228 (and 355-356, 385-386, 455-456): the domain a path
    selects, [None] for the general view. *)
Definition selected_domain (pathname : pystr) : result (option (list N)) :=
  if startswith (py "/dashboard-oeuvres/") pathname
     && negb (bool_decide (pathname = py "/dashboard-oeuvres"))
  then
    piece ← getitem (split_str (py "/dashboard-oeuvres/") pathname) 1;
    Ok (Some (replace_str (py "%20") (py " ") piece))
  else Ok None.

(** Lines 248-251 of [get_main_figure]: the edges of the century bins and
    their labels; the arguments are [int(min_year)] and [int(max_year)]. *)
Definition century_bins (min_year max_year : Z) : result (list Z * list (list N)) :=
  let start_century := (min_year / 100 * 100)%Z in
  let end_century := ((max_year / 100 + 1) * 100)%Z in
  bins ← py_range start_century (end_century + 100) 100;
  let labels :=
    List.map (fun b => str_int b ++ py "-" ++ str_int (b + 99)) (removelast bins) in
  Ok (bins, labels).

(** Lines 391-423 of [update_slider]. The argument is what the data give:
    [None] when [subset] is empty, else [int(np.percentile(..., 5))] and
    [int(subset[...].max())]. The result is [marks, min, max, value, step]. *)
Definition update_slider (subset : option (Z * Z))
    : result (gmap Z (list N) * Z * Z * list Z * Z) :=
  let '(min_year, max_year) :=
    match subset with
    | None => (0, 2025)%Z
    | Some (min_raw, max_date) => (min_raw / 100 * 100, Z.min max_date 2025)%Z
    end in
  let span := (max_year - min_year)%Z in
  let step := (if span <=? 100 then 1
               else if span <=? 500 then 10
               else if span <=? 2000 then 50
               else 100)%Z in
  q ← floordiv span step;
  let num_marks := Z.min 10 (Z.max 2 (q + 1)) in
  step_marks ← (if (0 <? span)%Z
                then q ← floordiv span (num_marks - 1); Ok (Z.max 200 q)
                else Ok 1%Z);
  step_marks ← (if (0 <? step)%Z
                then q ← floordiv step_marks step; Ok (q * step)%Z
                else Ok step_marks);
  years ← py_range min_year (max_year + 1) step_marks;
  let marks := marks_of years in
  let marks := <[min_year := str_int min_year]> marks in
  let marks := <[max_year := str_int max_year]> marks in
  Ok (marks, min_year, max_year, [min_year; max_year], step).

End DashboardOeuvres.

(** ** The stand-alone dashboard, [src/dash_app.py] *)

Module DashApp.

(** Line 240 of [redirect]. *)
Definition domain_path (domaine : pystr) : pystr := py "/domaine/" ++ domaine.

(** What [get_main_figure] makes of a path (lines 145, 156-157 and
    178-179); [update_slider] reads the domain off the path in the same way
    (lines 204-205). *)
Inductive view :=
| AllDomains
| Domain (domaine : pystr)
| NotFound.

Definition selected_view (pathname : pystr) : result view :=
  if bool_decide (pathname = py "/") then Ok AllDomains
  else if startswith (py "/domaine/") pathname then
    domaine ← getitem (split_str (py "/domaine/") pathname) 1;
    Ok (Domain domaine)
  else Ok NotFound.

(** Lines 163-166 of [get_main_figure], on whole-number dates. *)
Definition century_bins (min_date max_date : Z) : result (list Z * list (list N)) :=
  let min_year := (min_date / 100 * 100)%Z in
  let max_year := (max_date + 100)%Z in
  bins ← py_range min_year max_year 100;
  let labels :=
    List.map (fun b => str_int b ++ py "-" ++ str_int (b + 100)) (removelast bins) in
  Ok (bins, labels).

(** Lines 212-214 of [update_slider]. *)
Definition update_slider (min_year max_year : Z)
    : result (gmap Z (list N) * Z * Z * list Z) :=
  let step := Z.max 1 (max_year - min_year) in
  years ← py_range min_year (max_year + 1) step;
  Ok (marks_of years, min_year, max_year, [min_year; max_year]).

End DashApp.

(** * Properties *)

(** ** Strings *)

Lemma split_length_pos sep s : (1 <= length (split sep s))%nat.
Proof.
  induction s as [|c s IH]; simpl; [lia|].
  destruct (c =? sep); simpl; [lia|].
  destruct (split sep s); simpl in *; lia.
Qed.

Lemma stripped_parts_length s :
  length (stripped_parts s) = length (split comma s).
Proof. unfold stripped_parts. apply length_map. Qed.

Lemma stripped_parts_length_pos s : (1 <= length (stripped_parts s))%nat.
Proof. rewrite stripped_parts_length. apply split_length_pos. Qed.

(** A single piece is the whole string. *)
Lemma split_single sep s seg : split sep s = [seg] -> seg = s.
Proof.
  revert seg. induction s as [|c s IH]; simpl; intros seg.
  - congruence.
  - destruct (c =? sep).
    + pose proof (split_length_pos sep s). intros [= <- H0].
      rewrite H0 in H. simpl in H. lia.
    + pose proof (split_length_pos sep s) as Hpos.
      destruct (split sep s) as [|p ps] eqn:E.
      * simpl in Hpos. lia.
      * intros [= <- ->]. by rewrite (IH p eq_refl).
Qed.

Lemma last_cons_default {A} (q d : A) l : List.last (q :: l) d = List.last l q.
Proof.
  revert q d. induction l as [|a l IH]; intros q d; [done|].
  change (List.last (q :: a :: l) d) with (List.last (a :: l) d).
  by rewrite !IH.
Qed.

(** The item at index [-1] of a non-empty list. *)
Lemma nth_error_last {A} (p : A) rest :
  nth_error (p :: rest) (length rest) = Some (List.last rest p).
Proof.
  revert p. induction rest as [|q rest IH]; intros p; [done|].
  rewrite last_cons_default. exact (IH q).
Qed.

(** ** Location parsing *)

Section ParseLocation.

Implicit Types (loc : cell) (s : pystr).

Lemma carte_parse_cases s :
  match stripped_parts s with
  | [] => False
  | [m] => Carte.parse_location (Some s) = Ok (mkParsed None None (Some m))
  | [m; v] => Carte.parse_location (Some s) = Ok (mkParsed None (Some v) (Some m))
  | m :: v :: p :: rest =>
      Carte.parse_location (Some s)
      = Ok (mkParsed (Some (List.last rest p)) (Some v) (Some m))
  end.
Proof.
  pose proof (stripped_parts_length_pos s) as Hlen.
  unfold Carte.parse_location.
  destruct (stripped_parts s) as [|m [|v [|p rest]]]; simpl in *; try done; [lia|].
  assert (getitem (p :: rest) (-1) = Ok (List.last rest p)) as ->; [|done].
  unfold getitem.
  assert (Z.of_nat (length (p :: rest)) + -1 = Z.of_nat (length rest))%Z as E
    by (simpl; lia).
  replace (if (-1 <? 0)%Z then (Z.of_nat (length (p :: rest)) + -1)%Z else (-1)%Z)
    with (Z.of_nat (length rest)) by (by rewrite E).
  cbv zeta.
  destruct (Z.ltb_spec (Z.of_nat (length rest)) 0); [lia|].
  rewrite Nat2Z.id. by rewrite nth_error_last.
Qed.

Lemma carte_musees_parse_cases s :
  match stripped_parts s with
  | [] => False
  | [m] => CarteMusees.parse_location (Some s) = Ok (mkParsed None None (Some m))
  | [m; v] =>
      CarteMusees.parse_location (Some s) = Ok (mkParsed None (Some v) (Some m))
  | m :: v :: p :: rest =>
      CarteMusees.parse_location (Some s)
      = Ok (mkParsed (Some p) (Some v) (Some m))
  end.
Proof.
  pose proof (stripped_parts_length_pos s) as Hlen.
  unfold CarteMusees.parse_location.
  destruct (stripped_parts s) as [|m [|v [|p rest]]]; simpl in *; try done; lia.
Qed.

End ParseLocation.

(** C7. On the missing input both versions of [parse_location] return the
    all-null triple; on an input with exactly one comma-delimited segment
    they return that segment (the whole string), trimmed, as the museum,
    with city and country null; and on every input (missing or any string)
    they return a triple: no indexing or unpacking step raises. *)
Theorem parse_location_null_single_never_raises :
  (Carte.parse_location None = Ok all_null
   /\ CarteMusees.parse_location None = Ok all_null)
  /\ (forall s, segments (Some s) = 1%nat ->
        Carte.parse_location (Some s) = Ok (mkParsed None None (Some (strip s)))
        /\ CarteMusees.parse_location (Some s)
           = Ok (mkParsed None None (Some (strip s))))
  /\ (forall loc, (exists p, Carte.parse_location loc = Ok p)
                  /\ (exists p, CarteMusees.parse_location loc = Ok p)).
Proof.
  split; [done|]. split.
  - intros s Hs. simpl in Hs.
    pose proof (carte_parse_cases s) as H1.
    pose proof (carte_musees_parse_cases s) as H2.
    unfold stripped_parts in H1, H2.
    destruct (split comma s) as [|seg [|]] eqn:E; try done.
    apply split_single in E as ->. by simpl in *.
  - intros [s|]; [|by split; eexists].
    pose proof (carte_parse_cases s) as H1.
    pose proof (carte_musees_parse_cases s) as H2.
    destruct (stripped_parts s) as [|m [|v [|p rest]]]; try done;
      rewrite H1, H2; split; by eexists.
Qed.

Lemma parse_location_null_single_never_raises_witness :
  segments (Some (py "  Louvre ")) = 1%nat
  /\ Carte.parse_location (Some (py "  Louvre "))
     = Ok (mkParsed None None (Some (strip (py "  Louvre "))))
  /\ CarteMusees.parse_location (Some (py "  Louvre "))
     = Ok (mkParsed None None (Some (strip (py "  Louvre ")))).
Proof.
  split; [reflexivity|].
  apply (proj1 (proj2 parse_location_null_single_never_raises)).
  reflexivity.
Defined.

Example parse_location_louvre :
  Carte.parse_location (Some (py "Louvre"))
  = Ok (mkParsed None None (Some (py "Louvre")))
  /\ CarteMusees.parse_location (Some (py "Louvre"))
     = Ok (mkParsed None None (Some (py "Louvre"))).
Proof. split; reflexivity. Qed.

(** C10. Splitting a string on commas never yields zero segments, so for a
    string input neither version of [parse_location] reaches its all-null
    branch: the museum field is always a string. The empty string gives the
    museum [""] (not null) with city and country null. *)
Theorem parse_location_zero_segments_unreachable :
  (forall s, length (split comma s) <> 0%nat
             /\ length (stripped_parts s) <> 0%nat)
  /\ (forall s, (exists p v m, Carte.parse_location (Some s)
                               = Ok (mkParsed p v (Some m)))
                /\ (exists p v m, CarteMusees.parse_location (Some s)
                                  = Ok (mkParsed p v (Some m))))
  /\ Carte.parse_location (Some []) = Ok (mkParsed None None (Some []))
  /\ CarteMusees.parse_location (Some []) = Ok (mkParsed None None (Some [])).
Proof.
  split; [|split; [|done]].
  - intros s. pose proof (split_length_pos comma s).
    pose proof (stripped_parts_length_pos s). lia.
  - intros s.
    pose proof (carte_parse_cases s) as H1.
    pose proof (carte_musees_parse_cases s) as H2.
    destruct (stripped_parts s) as [|m [|v [|p rest]]]; try done;
      rewrite H1, H2; split; by do 3 eexists.
Qed.

(** C6. The two versions of [parse_location] return the same triple on every
    input with at most three comma-delimited segments, the missing input
    included; both send "Louvre, Paris, France" to museum "Louvre", city
    "Paris", country "France". *)
Theorem parse_location_variants_agree :
  (forall loc, (segments loc <= 3)%nat ->
     Carte.parse_location loc = CarteMusees.parse_location loc)
  /\ Carte.parse_location (Some (py "Louvre, Paris, France"))
     = Ok (mkParsed (Some (py "France")) (Some (py "Paris")) (Some (py "Louvre")))
  /\ CarteMusees.parse_location (Some (py "Louvre, Paris, France"))
     = Ok (mkParsed (Some (py "France")) (Some (py "Paris")) (Some (py "Louvre"))).
Proof.
  split; [|done].
  intros [s|] Hseg; [|done]. simpl in Hseg.
  rewrite <- stripped_parts_length in Hseg.
  pose proof (carte_parse_cases s) as H1.
  pose proof (carte_musees_parse_cases s) as H2.
  destruct (stripped_parts s) as [|m [|v [|p [|q rest]]]]; try done;
    [by rewrite H1, H2..|simpl in Hseg; lia].
Qed.

Lemma parse_location_variants_agree_witness :
  (segments (Some (py "Louvre, Paris, France")) <= 3)%nat
  /\ Carte.parse_location (Some (py "Louvre, Paris, France"))
     = CarteMusees.parse_location (Some (py "Louvre, Paris, France")).
Proof.
  split; [vm_compute; lia|].
  apply (proj1 parse_location_variants_agree). vm_compute. lia.
Defined.

(** Beyond three segments the two versions part: the fourth segment is the
    country for [src/carte.py], the third for [src/pages/carte_musees.py]. *)
Example parse_location_four_segments :
  Carte.parse_location (Some (py "A, B, C, D"))
  = Ok (mkParsed (Some (py "D")) (Some (py "B")) (Some (py "A")))
  /\ CarteMusees.parse_location (Some (py "A, B, C, D"))
     = Ok (mkParsed (Some (py "C")) (Some (py "B")) (Some (py "A"))).
Proof. split; reflexivity. Qed.

(** ** The geocoding script *)

Section Columns.

Import Geocoding.

Implicit Types (x : cell) (col : list cell).

(** *** [dropna] and [unique] *)

Lemma elem_of_dropna x col : x ∈ dropna col <-> x ∈ col /\ x <> None.
Proof.
  unfold dropna. rewrite !list_elem_of_In, List.filter_In.
  destruct x; naive_solver.
Qed.

Lemma elem_of_unique_from seen x col :
  x ∈ unique_from seen col <-> x ∈ col /\ x ∉ seen.
Proof.
  revert seen. induction col as [|y col IH]; intros seen; simpl.
  - set_solver.
  - case_bool_decide as Hy.
    + rewrite IH. set_solver.
    + rewrite elem_of_cons, IH, elem_of_cons.
      destruct (decide (x = y)) as [->|]; set_solver.
Qed.

Lemma NoDup_unique_from seen col : NoDup (unique_from seen col).
Proof.
  revert seen. induction col as [|y col IH]; intros seen; simpl.
  - constructor.
  - case_bool_decide; [done|]. constructor; [|done].
    rewrite elem_of_unique_from. set_solver.
Qed.

Lemma elem_of_unique x col : x ∈ unique col <-> x ∈ col.
Proof. unfold unique. rewrite elem_of_unique_from. set_solver. Qed.

Lemma NoDup_unique col : NoDup (unique col).
Proof. apply NoDup_unique_from. Qed.

(** [villes_unique] holds each city of the column once, and nothing else. *)
Lemma villes_unique_cities col x :
  x ∈ unique (dropna col) <-> exists city, x = Some city /\ city ∈ cities col.
Proof.
  rewrite elem_of_unique, elem_of_dropna. unfold cities.
  setoid_rewrite elem_of_list_to_set. setoid_rewrite list_elem_of_omap.
  split.
  - intros [Hx Hn]. destruct x as [city|]; [|done]. exists city. split; [done|].
    by exists (Some city).
  - intros (city & -> & y & Hy & Hid). simpl in Hid. subst y. done.
Qed.

Lemma villes_unique_length col :
  length (unique (dropna col)) = size (cities col).
Proof.
  assert (Forall (fun x : cell => is_Some x) (unique (dropna col))) as Hsome.
  { apply Forall_forall. intros x Hx.
    apply villes_unique_cities in Hx as (city & -> & _). by eexists. }
  assert (cities col = list_to_set (omap id (unique (dropna col)))) as ->.
  { apply set_eq. intros city. unfold cities.
    rewrite !elem_of_list_to_set, !list_elem_of_omap. split.
    - intros (y & Hy & Hid). simpl in Hid. subst y. exists (Some city).
      split; [|done]. rewrite elem_of_unique, elem_of_dropna. done.
    - intros (y & Hy & Hid). simpl in Hid. subst y. exists (Some city).
      split; [|done]. by apply elem_of_unique, elem_of_dropna in Hy as [? _]. }
  rewrite size_list_to_set.
  - clear -Hsome. induction Hsome as [|x l [c ->] _ IH]; simpl; [done|].
    by rewrite IH.
  - pose proof (NoDup_unique (dropna col)) as Hnd. revert Hsome Hnd.
    generalize (unique (dropna col)). clear.
    induction l as [|x l IH]; intros Hsome Hnd; simpl; [constructor|].
    inversion Hsome as [|? ? [c ->] Hl]; subst. inversion Hnd as [|? ? Hx Hnd']; subst.
    simpl. constructor; [|by apply IH].
    rewrite list_elem_of_omap. intros (y & Hy & Hid). simpl in Hid. by subst y.
Qed.


Lemma to_geocode_sub villes_unique city :
  city ∈ to_geocode villes_unique -> Some city ∈ villes_unique.
Proof.
  unfold to_geocode. rewrite list_elem_of_omap.
  intros ([c|] & Hx & Hc); [|done].
  destruct (manual_fix_villes !! c); [done|]. by injection Hc as ->.
Qed.

Lemma to_geocode_length villes_unique :
  (length (to_geocode villes_unique) <= length villes_unique)%nat.
Proof.
  induction villes_unique as [|[c|] l IH]; simpl; [lia| |lia].
  fold (to_geocode l). destruct (manual_fix_villes !! c); simpl; lia.
Qed.

Lemma to_geocode_NoDup villes_unique :
  NoDup villes_unique -> NoDup (to_geocode villes_unique).
Proof.
  induction 1 as [|x l Hx Hnd IH]; simpl; [constructor|].
  fold (to_geocode l). destruct x as [c|]; [|done].
  destruct (manual_fix_villes !! c); [done|].
  constructor; [|done]. intros Hc. by apply to_geocode_sub in Hc.
Qed.

(** *** City extraction *)

Lemma split1_contains sep s :
  contains sep s = true -> exists a b, split1 sep s = [a; b].
Proof.
  unfold contains. induction s as [|c s IH]; simpl; [done|].
  rewrite (N.eqb_sym sep c). destruct (c =? sep); simpl; [by eauto|].
  intros H. destruct (IH H) as (a & b & ->). by eauto.
Qed.

Lemma extract_city_returns x : exists v, extract_city x = Ok v.
Proof.
  destruct x as [loc|]; [|by eexists]. unfold extract_city.
  assert (forall s, exists v,
    (if (2 <=? length (stripped_parts s))%nat
     then city ← getitem (stripped_parts s) 1; Ok (Some city)
     else Ok None) = Ok v) as Hparts.
  { intros s. destruct (stripped_parts s) as [|a [|b l]]; by eexists. }
  destruct (contains gt_sign loc) eqn:Hgt; simpl.
  - destruct (split1_contains _ _ Hgt) as (a & b & ->). simpl. apply Hparts.
  - apply Hparts.
Qed.

(** [apply] keeps length and order when the function never raises. *)
Lemma apply_returns {A B} (f : A -> result B) (l : list A) :
  (forall a, exists b, f a = Ok b) ->
  exists l', apply f l = Ok l'
    /\ length l' = length l
    /\ forall i a, l !! i = Some a -> exists b, f a = Ok b /\ l' !! i = Some b.
Proof.
  intros Hf. induction l as [|a l (l' & Hl' & Hlen & Hnth)]; simpl.
  - exists []. by split_and!.
  - destruct (Hf a) as [b Hb]. rewrite Hb, Hl'. simpl.
    exists (b :: l'). split_and!; [done|simpl; congruence|].
    intros [|i] a'; simpl; [|by apply Hnth].
    intros [= <-]. by exists b.
Qed.

End Columns.

Section GeocodingProperties.

Import Geocoding.

Context {World : Type}.
Variable geocode : pystr -> World -> result (option Location) * World.

Implicit Types (env : Env (World := World)) (city : pystr) (country x : cell).
Implicit Types (col : list cell).

(** What one call of [get_city_coordinates] does, case by case. *)
Lemma get_city_coordinates_unfold x country env :
  get_city_coordinates geocode x country env =
  match x with
  | None =>
      (Ok (None, None),
       mkEnv (world env) (stdout env) (geocode_calls env) (lookups env ++ [None]))
  | Some city =>
      match manual_fix_villes !! city with
      | Some (lat, lon) =>
          (Ok (Some lat, Some lon),
           mkEnv (world env) (stdout env ++ [MANUAL_FIX city lat lon])
                 (geocode_calls env) (lookups env ++ [Some city]))
      | None =>
          match geocode (key city country) (world env) with
          | (Ok (Some l), w) =>
              (Ok (Some (latitude l), Some (longitude l)),
               mkEnv w (stdout env ++ [OK city (latitude l) (longitude l)])
                     (geocode_calls env ++ [key city country])
                     (lookups env ++ [Some city]))
          | (Ok None, w) =>
              (Ok (None, None),
               mkEnv w (stdout env ++ [NOT_FOUND city])
                     (geocode_calls env ++ [key city country])
                     (lookups env ++ [Some city]))
          | (Raise e, w) =>
              (Ok (None, None),
               mkEnv w (stdout env ++ [ERROR city e])
                     (geocode_calls env ++ [key city country])
                     (lookups env ++ [Some city]))
          end
      end
  end.
Proof.
  unfold get_city_coordinates, mbind, M_bind, mret, M_ret, enter_lookup.
  destruct x as [city|]; [|done]. simpl.
  destruct (manual_fix_villes !! city) as [[lat lon]|]; [done|].
  unfold try_except, call_geocode. simpl.
  destruct (geocode (key city country) (world env)) as [[[l|]|e] w]; done.
Qed.

(** C2. For a city that is a key of the override table, whatever the country
    argument, the service and the state of the world,
    [get_city_coordinates] returns the table's pair, and [geocode] is not
    invoked: the trace of queries and the world are as before the call. *)
Theorem manual_override_skips_geocode city country lat lon env :
  manual_fix_villes !! city = Some (lat, lon) ->
  exists env',
    get_city_coordinates geocode (Some city) country env
    = (Ok (Some lat, Some lon), env')
    /\ geocode_calls env' = geocode_calls env
    /\ world env' = world env.
Proof.
  intros Hfix. rewrite get_city_coordinates_unfold, Hfix. by eexists.
Qed.

(** With or without a failure, a call of [get_city_coordinates] returns. *)
Lemma get_city_coordinates_returns x country env :
  exists c, fst (get_city_coordinates geocode x country env) = Ok c.
Proof.
  rewrite get_city_coordinates_unfold.
  destruct x as [city|]; [|by eexists].
  destruct (manual_fix_villes !! city) as [[lat lon]|]; [by eexists|].
  destruct (geocode (key city country) (world env)) as [[[l|]|e] w]; by eexists.
Qed.

(** The loop returns; it looks every item of [villes_unique] up once, in
    order, and hands [geocode] the cities the override table lacks. *)
Lemma resolve_loop_run villes_unique coords_dict env :
  exists coords_dict' env',
    resolve_loop geocode villes_unique coords_dict env = (Ok coords_dict', env')
    /\ lookups env' = lookups env ++ villes_unique
    /\ geocode_calls env' = geocode_calls env ++ to_geocode villes_unique
    /\ dom coords_dict' = dom coords_dict ∪ list_to_set villes_unique.
Proof.
  revert coords_dict env.
  induction villes_unique as [|x l IH]; intros coords_dict env; simpl.
  - exists coords_dict, env. rewrite !app_nil_r. split; [done|]. set_solver.
  - unfold mbind, M_bind. rewrite get_city_coordinates_unfold.
    fold (to_geocode l).
    destruct x as [city|].
    + destruct (manual_fix_villes !! city) as [[lat lon]|] eqn:Hfix.
      * edestruct IH as (d' & env' & -> & Hl & Hc & Hd).
        exists d', env'. simpl in *. rewrite Hl, Hc, Hd, dom_insert_L.
        rewrite <- !app_assoc. split_and!; [done..|set_solver].
      * unfold key.
        destruct (geocode city (world env)) as [[[loc|]|e] w];
          edestruct IH as (d' & env' & -> & Hl & Hc & Hd);
          exists d', env'; simpl in *; rewrite Hl, Hc, Hd, dom_insert_L;
          rewrite <- !app_assoc; (split_and!; [done..|set_solver]).
    + edestruct IH as (d' & env' & -> & Hl & Hc & Hd).
      exists d', env'. simpl in *. rewrite Hl, Hc, Hd, dom_insert_L.
      rewrite <- !app_assoc. split_and!; [done..|set_solver].
Qed.

(** C1. One run of the resolver on a column, whatever the service answers:
    the queries it hands to [geocode] are distinct cities of the column, so
    there are at most as many as the column has distinct cities, however
    often each city occurs; and [get_city_coordinates] is called once for
    each distinct city and for nothing else. *)
Theorem resolve_geocodes_each_city_at_most_once col env :
  let C := cities col in
  exists coords_dict env',
    resolve geocode col env = (Ok coords_dict, env')
    /\ (exists queries,
          geocode_calls env' = geocode_calls env ++ queries
          /\ (length queries <= size C)%nat
          /\ NoDup queries
          /\ queries ⊆ elements C)
    /\ (exists keys,
          lookups env' = lookups env ++ keys
          /\ NoDup keys
          /\ length keys = size C
          /\ keys ≡ₚ List.map Some (elements C)).
Proof.
  intros C. subst C. unfold resolve.
  destruct (resolve_loop_run (unique (dropna col)) ∅ env)
    as (d & env' & Hrun & Hl & Hc & _).
  exists d, env'. split; [done|].
  pose proof (NoDup_unique (dropna col)) as Hnd.
  split.
  - exists (to_geocode (unique (dropna col))). split_and!.
    + done.
    + rewrite <- villes_unique_length. apply to_geocode_length.
    + by apply to_geocode_NoDup.
    + intros q Hq. apply to_geocode_sub, villes_unique_cities in Hq.
      destruct Hq as (city & [= <-] & Hcity). by apply elem_of_elements.
  - exists (unique (dropna col)). split_and!; [done..|apply villes_unique_length|].
    apply NoDup_Permutation; [done| |].
    + apply NoDup_fmap_2; [by intros ?? [=]|apply NoDup_elements].
    + intros x. rewrite villes_unique_cities, list_elem_of_fmap.
      setoid_rewrite elem_of_elements. naive_solver.
Qed.

(** *** Assembly *)

Lemma assemble_lookup col (coords_dict : gmap (option (list N)) coord) i x :
  col !! i = Some x ->
  fst (assemble col coords_dict) !! i = Some (fst (coords_get coords_dict x))
  /\ snd (assemble col coords_dict) !! i = Some (snd (coords_get coords_dict x)).
Proof.
  intros Hi. unfold assemble. simpl.
  change (@List.map) with (@fmap list _). by rewrite !list_lookup_fmap, Hi.
Qed.

(** The whole script returns, and its [coords_dict] has no null key. *)
Lemma script_run lieu env :
  exists villes coords_dict env',
    apply extract_city lieu = Ok villes
    /\ resolve geocode villes env = (Ok coords_dict, env')
    /\ coords_dict !! None = None
    /\ script geocode lieu env
       = (Ok (mkFrame lieu villes (fst (assemble villes coords_dict))
                      (snd (assemble villes coords_dict))), env').
Proof.
  destruct (apply_returns extract_city lieu extract_city_returns)
    as (villes & Hap & _).
  unfold script, resolve, mbind, M_bind, lift. rewrite Hap.
  destruct (resolve_loop_run (unique (dropna villes)) ∅ env)
    as (d & env' & Hrun & _ & _ & Hdom).
  unfold resolve. rewrite Hrun. exists villes, d, env'.
  split_and!; [done..| |done].
  apply not_elem_of_dom. rewrite Hdom, dom_empty_L, elem_of_union.
  rewrite elem_of_list_to_set, villes_unique_cities, elem_of_empty.
  naive_solver.
Qed.

(** C3. For a city the override table does not hold (the cities for which
    [geocode] is invoked): when [geocode] raises or returns [None] on the
    city's query, [get_city_coordinates] returns [(None, None)] as a value.
    Whatever [geocode] does, no call of [get_city_coordinates] raises, and
    the script runs to its end. *)
Theorem geocode_failure_gives_unresolved :
  (forall city country env,
     manual_fix_villes !! city = None ->
     (fst (geocode (key city country) (world env)) = Ok None
      \/ exists e, fst (geocode (key city country) (world env)) = Raise e) ->
     fst (get_city_coordinates geocode (Some city) country env) = Ok (None, None))
  /\ (forall x country env,
        exists c, fst (get_city_coordinates geocode x country env) = Ok c)
  /\ (forall lieu env,
        exists df, fst (script geocode lieu env) = Ok df).
Proof.
  split_and!.
  - intros city country env Hfix Hfail.
    rewrite get_city_coordinates_unfold, Hfix.
    destruct (geocode (key city country) (world env)) as [[[l|]|e] w];
      simpl in *; [|done..].
    by destruct Hfail as [?|[e ?]].
  - apply get_city_coordinates_returns.
  - intros lieu env.
    destruct (script_run lieu env) as (villes & d & env' & _ & _ & _ & ->).
    by eexists.
Qed.

(** C8. The assembly of lines 89-90 yields one latitude and one longitude
    per cell of the city column, the ones at index [i] being those the
    mapping gives for the city at index [i], and null when the mapping lacks
    that city. The script as a whole returns a frame (no failure) with the
    input column unchanged and one city, latitude and longitude per input
    record, in the input's order; a record whose extracted city is null gets
    a null latitude and a null longitude. *)
Theorem assemble_one_to_one_null_when_missing :
  (forall col (coords_dict : gmap (option (list N)) coord),
     length (fst (assemble col coords_dict)) = length col
     /\ length (snd (assemble col coords_dict)) = length col
     /\ forall i x, col !! i = Some x ->
          fst (assemble col coords_dict) !! i = Some (fst (coords_get coords_dict x))
          /\ snd (assemble col coords_dict) !! i
             = Some (snd (coords_get coords_dict x))
          /\ (coords_dict !! x = None ->
              fst (assemble col coords_dict) !! i = Some None
              /\ snd (assemble col coords_dict) !! i = Some None))
  /\ (forall lieu env, exists df env',
        script geocode lieu env = (Ok df, env')
        /\ lieu_de_conservation df = lieu
        /\ length (ville df) = length lieu
        /\ length (latitude_column df) = length lieu
        /\ length (longitude_column df) = length lieu
        /\ forall i loc, lieu !! i = Some loc ->
             exists v : cell, extract_city loc = Ok v
               /\ ville df !! i = Some v
               /\ (v = None ->
                   latitude_column df !! i = Some None
                   /\ longitude_column df !! i = Some None)).
Proof.
  split.
  - intros col d.
    split_and!; [unfold assemble; simpl; by rewrite length_map..|].
    intros i x Hi.
    destruct (assemble_lookup col d i x Hi) as [Hlat Hlon].
    split_and!; [done..|]. intros Hx.
    rewrite Hlat, Hlon. unfold coords_get. by rewrite Hx.
  - intros lieu env.
    destruct (script_run lieu env) as (villes & d & env' & Hap & _ & HNone & ->).
    destruct (apply_returns extract_city lieu extract_city_returns)
      as (villes' & Hap' & Hlen & Hnth).
    assert (villes' = villes) as -> by congruence.
    eexists _, env'. split; [done|].
    cbn [lieu_de_conservation ville latitude_column longitude_column].
    split_and!; [done|done|unfold assemble; simpl; by rewrite length_map..|].
    intros i loc Hi.
    destruct (Hnth i loc Hi) as (v & Hcity & Hv).
    exists v. split_and!; [done..|]. intros ->.
    destruct (assemble_lookup villes d i None Hv) as [Hlat Hlon].
    rewrite Hlat, Hlon. unfold coords_get. by rewrite HNone.
Qed.

End GeocodingProperties.

Lemma manual_override_skips_geocode_witness :
  Geocoding.manual_fix_villes !! py "Paris" = Some (48.856613, 2.352222)%float
  /\ exists env',
      Geocoding.get_city_coordinates Geocoding.demo_geocode
        (Some (py "Paris")) (Some (py "France")) (Geocoding.start 0%nat)
      = (Ok (Some 48.856613%float, Some 2.352222%float), env')
      /\ Geocoding.geocode_calls env' = []
      /\ Geocoding.world env' = 0%nat.
Proof.
  split; [vm_compute; reflexivity|].
  apply (manual_override_skips_geocode Geocoding.demo_geocode).
  vm_compute; reflexivity.
Defined.

Lemma geocode_failure_gives_unresolved_witness :
  Geocoding.manual_fix_villes !! py "Atlantis" = None
  /\ fst (Geocoding.demo_geocode (Geocoding.key (py "Atlantis") None) 0%nat)
     = Ok None
  /\ fst (Geocoding.get_city_coordinates Geocoding.demo_geocode
            (Some (py "Atlantis")) None (Geocoding.start 0%nat))
     = Ok (None, None).
Proof.
  split; [vm_compute; reflexivity|]. split; [vm_compute; reflexivity|].
  apply (proj1 (geocode_failure_gives_unresolved Geocoding.demo_geocode)).
  - vm_compute; reflexivity.
  - left. vm_compute; reflexivity.
Defined.

(** A time-out on "Rouen" leaves the city unresolved, and is printed. *)
Example timeout_gives_unresolved :
  Geocoding.get_city_coordinates Geocoding.demo_geocode
    (Some (py "Rouen")) None (Geocoding.start 0%nat)
  = (Ok (None, None),
     Geocoding.mkEnv 1%nat
       [Geocoding.ERROR (py "Rouen") Geocoding.GeocoderTimedOut]
       [py "Rouen"] [Some (py "Rouen")]).
Proof. vm_compute. reflexivity. Qed.

Lemma assemble_one_to_one_null_when_missing_witness :
  [Some (py "Paris"); None; Some (py "Ys")] !! 2%nat = Some (Some (py "Ys"))
  /\ ({[Some (py "Paris") := (Some 1.0%float, Some 2.0%float)]}
        : gmap (option (list N)) (option float * option float))
     !! Some (py "Ys") = None
  /\ fst (Geocoding.assemble [Some (py "Paris"); None; Some (py "Ys")]
            {[Some (py "Paris") := (Some 1.0%float, Some 2.0%float)]}) !! 2%nat
     = Some None
  /\ snd (Geocoding.assemble [Some (py "Paris"); None; Some (py "Ys")]
            {[Some (py "Paris") := (Some 1.0%float, Some 2.0%float)]}) !! 2%nat
     = Some None.
Proof.
  split; [reflexivity|]. split; [vm_compute; reflexivity|].
  apply (proj2 (proj2 (proj2 (proj2
           (proj1 (assemble_one_to_one_null_when_missing Geocoding.demo_geocode)
              [Some (py "Paris"); None; Some (py "Ys")]
              {[Some (py "Paris") := (Some 1.0%float, Some 2.0%float)]}))
           2%nat (Some (py "Ys")) eq_refl))).
  vm_compute; reflexivity.
Defined.

(** A run on four records, two of them in Paris and one without location:
    one query goes out, for Lyon; Paris comes from the override table for
    both of its records; the record without location gets null fields. *)
Example script_on_four_records :
  Geocoding.script Geocoding.demo_geocode
    [Some (py "Louvre, Paris, France"); Some (py "musee > Orsay, Paris, France");
     Some (py "Beaux-Arts, Lyon, France"); None]
    (Geocoding.start 0%nat)
  = (Ok (Geocoding.mkFrame
           [Some (py "Louvre, Paris, France");
            Some (py "musee > Orsay, Paris, France");
            Some (py "Beaux-Arts, Lyon, France"); None]
           [Some (py "Paris"); Some (py "Paris"); Some (py "Lyon"); None]
           [Some 48.856613%float; Some 48.856613%float; Some 45.7578137%float; None]
           [Some 2.352222%float; Some 2.352222%float; Some 4.8320114%float; None]),
     Geocoding.mkEnv 1%nat
       [Geocoding.MANUAL_FIX (py "Paris") 48.856613 2.352222;
        Geocoding.OK (py "Lyon") 45.7578137 4.8320114]
       [py "Lyon"]
       [Some (py "Paris"); Some (py "Lyon")]).
Proof. vm_compute. reflexivity. Qed.

(** ** Column names *)

Section Pieces.

Implicit Types (c sep : N) (s p : pystr) (parts : list pystr).

Lemma replace_as_map old new s :
  replace old [new] s = List.map (fun c => if c =? old then new else c) s.
Proof.
  unfold replace. induction s as [|c s IH]; simpl; [done|].
  rewrite IH. by destruct (c =? old).
Qed.

(** Replacing one character after the other is one substitution on
    characters. *)
Lemma replace_each_as_map u seps s :
  fold_left (fun s ch => replace ch [u] s) seps s
  = List.map (fun c => fold_left (fun c ch => if c =? ch then u else c) seps c) s.
Proof.
  revert s. induction seps as [|ch seps IH]; intros s; simpl.
  - by rewrite List.map_id.
  - rewrite IH, replace_as_map, List.map_map. done.
Qed.

Lemma substitute_fixed u seps :
  List.existsb (N.eqb u) seps = false ->
  fold_left (fun c ch => if c =? ch then u else c) seps u = u.
Proof.
  induction seps as [|ch seps IH]; simpl; [done|].
  intros [Hu Hseps]%orb_false_elim. rewrite Hu. by apply IH.
Qed.

Lemma substitute_char_gen u seps c :
  List.existsb (N.eqb u) seps = false ->
  fold_left (fun c ch => if c =? ch then u else c) seps c
  = if List.existsb (N.eqb c) seps then u else c.
Proof.
  intros Hu. induction seps as [|ch seps IH]; simpl; [done|].
  simpl in Hu. apply orb_false_elim in Hu as [Hu Hseps].
  destruct (c =? ch); simpl; [by apply substitute_fixed|by apply IH].
Qed.

Lemma substitute_char c :
  fold_left (fun c ch => if c =? ch then underscore else c) separators c
  = if is_separator c then underscore else c.
Proof. by apply substitute_char_gen. Qed.

Lemma replace_separators s :
  fold_left (fun s ch => replace ch [underscore] s) separators s
  = List.map (fun c => if is_separator c then underscore else c) s.
Proof.
  rewrite replace_each_as_map. apply List.map_ext, substitute_char.
Qed.

(** No piece of a split holds the separator, and the pieces hold only
    characters of the string. *)
Lemma split_pieces sep (P : N -> Prop) s :
  Forall P s -> Forall (Forall (fun c => P c /\ c <> sep)) (split sep s).
Proof.
  induction 1 as [|c s Hc Hs IH]; simpl; [by repeat constructor|].
  destruct (N.eqb_spec c sep) as [->|Hne]; [by constructor|].
  destruct (split sep s) as [|p ps]; [by repeat constructor|].
  inversion IH; subst. by repeat constructor.
Qed.

Lemma split_app_sep sep p s :
  Forall (fun c => c <> sep) p -> split sep (p ++ sep :: s) = p :: split sep s.
Proof.
  induction 1 as [|c p Hc Hp IH]; simpl.
  - by rewrite N.eqb_refl.
  - destruct (N.eqb_spec c sep); [done|]. by rewrite IH.
Qed.

Lemma split_sep_free sep p :
  Forall (fun c => c <> sep) p -> split sep p = [p].
Proof.
  induction 1 as [|c p Hc Hp IH]; simpl; [done|].
  destruct (N.eqb_spec c sep); [done|]. by rewrite IH.
Qed.

(** Splitting undoes joining when no part holds the separator. *)
Lemma split_join sep parts :
  parts <> [] ->
  Forall (Forall (fun c => c <> sep)) parts ->
  split sep (join [sep] parts) = parts.
Proof.
  intros Hne Hparts. induction Hparts as [|p ps Hp Hps IH]; [done|].
  destruct ps as [|q ps].
  - simpl. by apply split_sep_free.
  - change (join [sep] (p :: q :: ps)) with (p ++ sep :: join [sep] (q :: ps)).
    rewrite split_app_sep by done. by rewrite IH.
Qed.

(** Joining undoes splitting. *)
Lemma join_split sep s : join [sep] (split sep s) = s.
Proof.
  induction s as [|c s IH]; simpl; [done|].
  destruct (N.eqb_spec c sep) as [->|].
  - pose proof (split_length_pos sep s) as Hpos.
    destruct (split sep s) as [|p ps]; [simpl in Hpos; lia|].
    change (join [sep] ([] :: p :: ps)) with (sep :: join [sep] (p :: ps)).
    by rewrite IH.
  - pose proof (split_length_pos sep s) as Hpos.
    destruct (split sep s) as [|p ps]; [simpl in Hpos; lia|].
    destruct ps as [|q ps]; simpl in *; by rewrite <- IH.
Qed.

Lemma join_chars sep (P : N -> Prop) parts :
  P sep -> Forall (Forall P) parts -> Forall P (join [sep] parts).
Proof.
  intros Hsep. induction 1 as [|p ps Hp Hps IH]; [constructor|].
  destruct ps as [|q ps]; [done|].
  change (join [sep] (p :: q :: ps)) with (p ++ sep :: join [sep] (q :: ps)).
  apply Forall_app. split; [done|]. by constructor.
Qed.

Lemma join_nonempty sep parts :
  parts <> [] -> Forall (fun p => p <> []) parts -> join [sep] parts <> [].
Proof.
  intros Hne Hparts. destruct Hparts as [|p ps Hp Hps]; [done|].
  destruct ps; simpl; [done|]. by destruct p.
Qed.

Lemma filter_nonempty_spec parts :
  Forall (fun p => p <> []) (List.filter nonempty parts).
Proof.
  apply Forall_forall. intros p Hp.
  apply list_elem_of_In, List.filter_In in Hp as [_ Hp]. by destruct p.
Qed.

Lemma filter_nonempty_id parts :
  Forall (fun p => p <> []) parts -> List.filter nonempty parts = parts.
Proof.
  induction 1 as [|p ps Hp Hps IH]; simpl; [done|].
  destruct p; [done|]. simpl. by rewrite IH.
Qed.

Lemma filter_Forall {A} (P : A -> Prop) f (l : list A) :
  Forall P l -> Forall P (List.filter f l).
Proof.
  induction 1 as [|x l Hx Hl IH]; simpl; [constructor|].
  destruct (f x); [by constructor|done].
Qed.

End Pieces.

Section Collapse.

Implicit Types (c : N) (s p : pystr) (parts : list pystr).

Lemma collapse_parts (P : N -> Prop) s :
  Forall (fun c => is_separator c = false -> c <> underscore -> P c) s ->
  exists parts,
    collapse s = join [underscore] parts /\ Forall (part_of P) parts.
Proof.
  intros Hs. unfold collapse. rewrite replace_separators.
  eexists. split; [done|].
  set (Q c := is_separator c = false /\ (c <> underscore -> P c)).
  assert (Forall Q (List.map (fun c => if is_separator c then underscore else c) s))
    as Hsub.
  { apply List.Forall_map. eapply Forall_impl; [exact Hs|].
    intros c Hc. unfold Q. simpl. destruct (is_separator c) eqn:E; [done|].
    split; [done|]. by apply Hc. }
  apply (split_pieces underscore) in Hsub.
  pose proof (filter_nonempty_spec
    (split underscore
       (List.map (fun c => if is_separator c then underscore else c) s))) as Hne.
  apply (filter_Forall _ nonempty) in Hsub.
  revert Hne Hsub. generalize (List.filter nonempty (split underscore
    (List.map (fun c => if is_separator c then underscore else c) s))).
  intros parts Hne Hsub. induction Hne as [|p ps Hp Hps IH]; [constructor|].
  inversion Hsub as [|? ? Hq Hqs]; subst. constructor; [|by apply IH].
  split; [done|]. eapply Forall_impl; [exact Hq|].
  intros c [[Hsep HP] Hu]. split_and!; [done..|by apply HP].
Qed.

(** The separator handling leaves a joined list of parts as it is. *)
Lemma collapse_joined parts :
  Forall (part_of (fun _ => True)) parts ->
  collapse (join [underscore] parts) = join [underscore] parts.
Proof.
  intros Hparts. unfold collapse. rewrite replace_separators.
  assert (List.map (fun c => if is_separator c then underscore else c)
            (join [underscore] parts) = join [underscore] parts) as ->.
  { assert (Forall (fun c => is_separator c = false) (join [underscore] parts))
      as Hchars.
    { apply join_chars; [done|]. eapply Forall_impl; [exact Hparts|].
      intros p [_ Hp]. eapply Forall_impl; [exact Hp|]. by intros c [? _]. }
    induction Hchars as [|c s Hc Hs IH]; simpl; [done|]. by rewrite Hc, IH. }
  destruct parts as [|p ps]; [done|].
  rewrite split_join; [|done|].
  - rewrite filter_nonempty_id; [done|].
    eapply Forall_impl; [exact Hparts|]. by intros q [? _].
  - eapply Forall_impl; [exact Hparts|]. intros q [_ Hq].
    eapply Forall_impl; [exact Hq|]. by intros c (_ & ? & _).
Qed.

Lemma collapse_idempotent s : collapse (collapse s) = collapse s.
Proof.
  destruct (collapse_parts (fun _ => True) s) as (parts & -> & Hparts).
  - by apply Forall_forall.
  - by apply collapse_joined.
Qed.

Lemma joined_segmented (P : N -> bool) parts :
  Forall (part_of (fun c => P c = true)) parts ->
  segmented P (join [underscore] parts) = true.
Proof.
  intros Hparts. destruct parts as [|p ps]; [done|].
  assert (join [underscore] (p :: ps) <> []) as Hne.
  { apply join_nonempty; [done|]. eapply Forall_impl; [exact Hparts|].
    by intros q [? _]. }
  unfold segmented. destruct (join [underscore] (p :: ps)) as [|c s] eqn:E; [done|].
  rewrite <- E, split_join; [|done|].
  - apply forallb_forall. intros q Hq.
    apply list_elem_of_In in Hq.
    apply (proj1 (Forall_forall _ _) Hparts) in Hq as [Hq1 Hq2].
    apply andb_true_intro. split; [by destruct q|].
    apply forallb_forall. intros c' Hc'. apply list_elem_of_In in Hc'.
    by apply (proj1 (Forall_forall _ _) Hq2) in Hc' as (_ & _ & ?).
  - eapply Forall_impl; [exact Hparts|]. intros q [_ Hq].
    eapply Forall_impl; [exact Hq|]. by intros c' (_ & ? & _).
Qed.

(** Shape and alphabet of a collapsed string. *)
Lemma collapse_shape (P : N -> bool) s :
  Forall (fun c => is_separator c = false -> c <> underscore -> P c = true) s ->
  segmented P (collapse s) = true
  /\ Forall (fun c => is_separator c = false /\ (c = underscore \/ P c = true))
            (collapse s).
Proof.
  intros Hs.
  destruct (collapse_parts (fun c => P c = true) s Hs) as (parts & -> & Hparts).
  split; [by apply joined_segmented|].
  apply join_chars; [by split; [|left]|].
  eapply Forall_impl; [exact Hparts|]. intros p [_ Hp].
  eapply Forall_impl; [exact Hp|]. intros c (? & _ & ?). by split; [|right].
Qed.



End Collapse.

(** Boolean tests on characters, turned into arithmetic. *)
Ltac char_arith :=
  unfold settled, plain_ascii, name_char, canonical_char, lower_alnum,
    is_separator, separators, Py_UNICODE_ISSPACE, ascii_lower, underscore in *;
  simpl List.existsb in *;
  repeat match goal with
         | |- context [if ?b then _ else _] => destruct b eqn:?
         | H : context [if ?b then _ else _] |- _ => destruct b eqn:?
         end;
  repeat rewrite ?andb_true_iff, ?orb_true_iff, ?negb_true_iff, ?andb_false_iff,
    ?orb_false_iff, ?negb_false_iff, ?N.leb_le, ?N.ltb_lt, ?N.eqb_eq,
    ?N.leb_gt, ?N.ltb_ge, ?N.eqb_neq in *;
  lia.

Section Strip.

Implicit Types (c : N) (s : pystr).

Lemma lstrip_Forall (P : N -> Prop) s : Forall P s -> Forall P (lstrip s).
Proof.
  induction 1 as [|c s Hc Hs IH]; simpl; [constructor|].
  destruct (Py_UNICODE_ISSPACE c); [done|by constructor].
Qed.

Lemma strip_Forall (P : N -> Prop) s : Forall P s -> Forall P (strip s).
Proof.
  intros Hs. unfold strip, rstrip.
  by apply List.Forall_rev, lstrip_Forall, List.Forall_rev, lstrip_Forall.
Qed.

Lemma lstrip_no_space s :
  Forall (fun c => Py_UNICODE_ISSPACE c = false) s -> lstrip s = s.
Proof. destruct 1 as [|c s Hc Hs]; simpl; [done|]. by rewrite Hc. Qed.

Lemma strip_no_space s :
  Forall (fun c => Py_UNICODE_ISSPACE c = false) s -> strip s = s.
Proof.
  intros Hs. unfold strip, rstrip. rewrite (lstrip_no_space s Hs).
  rewrite lstrip_no_space by by apply List.Forall_rev.
  apply rev_involutive.
Qed.

End Strip.

Section Ascii.

Implicit Types (c : N) (s : pystr).

Lemma settled_lower c : settled c = true -> ascii_lower c = c.
Proof. intros H. char_arith. Qed.

Lemma settled_no_space c : settled c = true -> Py_UNICODE_ISSPACE c = false.
Proof.
  unfold settled. rewrite !andb_true_iff, !negb_true_iff. by intros [_ ?].
Qed.

Lemma settled_underscore : settled underscore = true.
Proof. reflexivity. Qed.

(** A lowered plain character that is no separator is settled. *)
Lemma plain_lower_settled c :
  plain_ascii c = true ->
  is_separator (ascii_lower c) = false ->
  settled (ascii_lower c) = true.
Proof. intros H1 H2. char_arith. Qed.



Lemma plain_ascii_ascii c : plain_ascii c = true -> c < 128.
Proof. intros H. char_arith. Qed.

Lemma lower_alnum_settled c :
  lower_alnum c = true ->
  settled c = true /\ is_separator c = false /\ c <> underscore.
Proof. intros H. split_and!; char_arith. Qed.


End Ascii.

Section Normalize.

Context {U : Unicode}.

Implicit Types (c : N) (s : pystr).

Lemma normalize_col_stages s :
  _normalize_col s = collapse (strip (unicode_fold s)).
Proof. reflexivity. Qed.

(** A normalised name that folding and trimming leave alone is a fixed
    point: the separator handling never changes its own output. *)
Lemma normalize_col_fixed_point s :
  strip (unicode_fold (_normalize_col s)) = _normalize_col s ->
  _normalize_col (_normalize_col s) = _normalize_col s.
Proof.
  intros Hfix. rewrite (normalize_col_stages (_normalize_col s)), Hfix.
  rewrite normalize_col_stages. apply collapse_idempotent.
Qed.



Context {HU : AsciiFaithful U}.

Lemma unicode_fold_ascii s :
  Forall (fun c => c < 128) s -> unicode_fold s = List.map ascii_lower s.
Proof.
  intros Hs. unfold unicode_fold. rewrite (NFKD_ascii s Hs).
  assert (List.filter (fun ch => combining ch =? 0) s = s) as ->.
  { induction Hs as [|c s Hc Hs IH]; simpl; [done|].
    by rewrite (combining_ascii c Hc), IH. }
  by apply lower_ascii.
Qed.

Lemma normalize_col_empty : _normalize_col [] = [].
Proof.
  rewrite normalize_col_stages, unicode_fold_ascii by constructor. reflexivity.
Qed.



(** On plain ASCII the normalised name is settled, hence a fixed point. *)
Lemma normalize_col_plain_settled s :
  List.forallb plain_ascii s = true ->
  Forall (fun c => settled c = true) (_normalize_col s).
Proof.
  intros Hs. rewrite normalize_col_stages.
  assert (Forall (fun c => plain_ascii c = true) s) as Hs'.
  { apply Forall_forall. intros c Hc. apply list_elem_of_In in Hc.
    by apply (proj1 (forallb_forall _ _) Hs). }
  rewrite unicode_fold_ascii
    by (eapply Forall_impl; [exact Hs'|apply plain_ascii_ascii]).
  destruct (collapse_shape settled (strip (List.map ascii_lower s)))
    as [_ Hchars].
  { apply strip_Forall, List.Forall_map. eapply Forall_impl; [exact Hs'|].
    intros c Hc Hsep _. by apply plain_lower_settled. }
  eapply Forall_impl; [exact Hchars|].
  intros c [_ [->|Hc]]; [apply settled_underscore|done].
Qed.

Lemma normalize_col_plain_idempotent s :
  List.forallb plain_ascii s = true ->
  _normalize_col (_normalize_col s) = _normalize_col s.
Proof.
  intros Hs. apply normalize_col_fixed_point.
  pose proof (normalize_col_plain_settled s Hs) as Hout.
  rewrite unicode_fold_ascii.
  - assert (List.map ascii_lower (_normalize_col s) = _normalize_col s) as ->.
    { induction Hout as [|c t Hc Ht IH]; simpl; [done|].
      by rewrite (settled_lower c Hc), IH. }
    apply strip_no_space. eapply Forall_impl; [exact Hout|].
    apply settled_no_space.
  - eapply Forall_impl; [exact Hout|]. intros c Hc. clear -Hc. char_arith.
Qed.

(** A canonical name comes back as it went in. *)
Lemma normalize_col_canonical_fixed s :
  segmented lower_alnum s = true -> _normalize_col s = s.
Proof.
  destruct s as [|c0 s0]; [intros _; apply normalize_col_empty|].
  set (s := c0 :: s0). unfold segmented. fold s. intros Hseg.
  assert (Forall (part_of (fun _ => True)) (split underscore s)
          /\ Forall (Forall (fun c => settled c = true)) (split underscore s))
    as [Hparts Hsettled].
  { split; apply Forall_forall; intros p Hp; apply list_elem_of_In in Hp;
      apply (proj1 (forallb_forall _ _) Hseg) in Hp;
      apply andb_true_iff in Hp as [Hne Hp].
    - split; [by destruct p|]. apply Forall_forall. intros c Hc.
      apply list_elem_of_In in Hc. apply (proj1 (forallb_forall _ _) Hp) in Hc.
      by destruct (lower_alnum_settled c Hc) as (_ & ? & ?).
    - apply Forall_forall. intros c Hc.
      apply list_elem_of_In in Hc. apply (proj1 (forallb_forall _ _) Hp) in Hc.
      by destruct (lower_alnum_settled c Hc) as (? & _). }
  assert (Forall (fun c => settled c = true) s) as Hs.
  { rewrite <- (join_split underscore s). by apply join_chars. }
  rewrite normalize_col_stages, unicode_fold_ascii.
  - assert (List.map ascii_lower s = s) as ->.
    { clear -Hs. induction Hs as [|c t Hc Ht IH]; simpl; [done|].
      by rewrite (settled_lower c Hc), IH. }
    rewrite strip_no_space
      by (eapply Forall_impl; [exact Hs|apply settled_no_space]).
    rewrite <- (join_split underscore s). by apply collapse_joined.
  - eapply Forall_impl; [exact Hs|]. intros c Hc. clear -Hc. char_arith.
Qed.

End Normalize.

(** The Latin-1 tables are faithful on ASCII. *)
Lemma latin1_decompose_ascii c : c < 128 -> latin1_decompose c = [c].
Proof.
  intros Hc. unfold latin1_decompose.
  assert (Forall (fun e : N * list N => fst e <> c) latin1_decomposition) as Hkeys.
  { unfold latin1_decomposition. repeat constructor; simpl; lia. }
  induction Hkeys as [|e l He Hl IH]; simpl; [done|].
  by destruct (N.eqb_spec (fst e) c).
Qed.

#[global] Instance latin1_ascii_faithful : AsciiFaithful latin1.
Proof.
  split.
  - intros s Hs. simpl. induction Hs as [|c s Hc Hs IH]; simpl; [done|].
    by rewrite (latin1_decompose_ascii c Hc), IH.
  - intros c Hc. simpl. unfold latin1_combining.
    destruct (N.leb_spec 0x300 c); [lia|]. simpl.
    destruct (N.eqb_spec c 0x308); [lia|].
    destruct (N.eqb_spec c 0x30A); [lia|].
    destruct (N.eqb_spec c 0x327); [lia|]. done.
  - intros s Hs. simpl. induction Hs as [|c s Hc Hs IH]; simpl; [done|].
    rewrite IH. f_equal. unfold latin1_lower, ascii_lower.
    destruct ((65 <=? c) && (c <=? 90)); [done|].
    destruct (N.leb_spec 0xC0 c); [lia|]. done.
Qed.

Section Kept.

Implicit Types (c : N) (s p : pystr) (parts : list pystr).






End Kept.

Section Accents.

Context {U : Unicode}.

Implicit Types (c : N) (s : pystr).



Context {HU : AsciiFaithful U}.



End Accents.






Example normalize_periode_epoque :
  _normalize_col (U := latin1) periode_epoque = py "periode_epoque".
Proof. vm_compute. reflexivity. Qed.

Example normalize_lieu_de_conservation :
  _normalize_col (U := latin1) (py "Lieu de conservation")
  = py "lieu_de_conservation".
Proof. vm_compute. reflexivity. Qed.


(** Characters that do not stay as they are: an acute accent standing alone
    decomposes into a space and a mark and ends as an underscore, one half
    decomposes into three characters, and a leading tab is trimmed. The
    accents of a column name are gone from its normalised form. *)
Example normalize_col_decomposed_characters :
  _normalize_col (U := latin1) [97; 180; 98] = py "a_b"
  /\ _normalize_col (U := latin1) [97; 189; 98] = [97; 49; 8260; 50; 98]
  /\ _normalize_col (U := latin1) [9; 97] = py "a"
  /\ List.existsb (accented (U := latin1)) periode_epoque = true
  /\ List.existsb (accented (U := latin1))
                  (_normalize_col (U := latin1) periode_epoque) = false.
Proof. vm_compute. repeat split; reflexivity. Qed.

(** C5, as the code has it. [_normalize_col] is a function of its argument
    (and of the interpreter's tables), and a second pass changes nothing
    whenever folding and trimming leave the first pass's output alone; with
    tables that are right on ASCII this is so for every ASCII input whose
    only white space is the space character, and a canonical name
    (lower-case alphanumeric segments joined by single underscores) is
    returned as it is. *)
Theorem normalize_col_idempotent_when_settled (U : Unicode) :
  (forall s s', s = s' -> _normalize_col s = _normalize_col s')
  /\ (forall s,
        strip (unicode_fold (_normalize_col s)) = _normalize_col s ->
        _normalize_col (_normalize_col s) = _normalize_col s)
  /\ (AsciiFaithful U ->
      (forall s, List.forallb plain_ascii s = true ->
                 _normalize_col (_normalize_col s) = _normalize_col s)
      /\ (forall s, segmented lower_alnum s = true -> _normalize_col s = s)).
Proof.
  split_and!.
  - by intros s s' ->.
  - apply normalize_col_fixed_point.
  - intros HU. split.
    + apply normalize_col_plain_idempotent.
    + apply normalize_col_canonical_fixed.
Qed.

Lemma normalize_col_idempotent_when_settled_witness :
  List.forallb plain_ascii (py "Lieu de conservation (ville/pays)") = true
  /\ _normalize_col (U := latin1)
       (_normalize_col (U := latin1) (py "Lieu de conservation (ville/pays)"))
     = _normalize_col (U := latin1) (py "Lieu de conservation (ville/pays)").
Proof.
  split; [vm_compute; reflexivity|].
  apply (proj1 (proj2 (proj2 (normalize_col_idempotent_when_settled latin1))
                  latin1_ascii_faithful)).
  vm_compute; reflexivity.
Defined.

(** C5 as stated fails: in "_<tab>a" the tab is not at an edge when [strip]
    runs, but it is once the underscore is gone; the second pass trims it. *)
Lemma normalize_col_not_idempotent :
  _normalize_col (U := latin1) [95; 9; 97] = [9; 97]
  /\ _normalize_col (U := latin1) [9; 97] = [97]
  /\ _normalize_col (U := latin1) (_normalize_col (U := latin1) [95; 9; 97])
     <> _normalize_col (U := latin1) [95; 9; 97].
Proof. vm_compute. repeat split; [reflexivity..|discriminate]. Qed.

(** * Further properties *)

(** ** Trimming *)

Section Trimming.

Implicit Types (c : N) (s t ws : pystr).

Lemma lstrip_app_space ws s :
  Forall (fun c => Py_UNICODE_ISSPACE c = true) ws -> lstrip (ws ++ s) = lstrip s.
Proof. induction 1 as [|c ws Hc Hws IH]; simpl; [done|]. by rewrite Hc. Qed.

Lemma lstrip_all_space ws :
  Forall (fun c => Py_UNICODE_ISSPACE c = true) ws -> lstrip ws = [].
Proof.
  intros Hws. rewrite <- (app_nil_r ws). by rewrite lstrip_app_space.
Qed.

Lemma lstrip_decompose s :
  exists ws, s = ws ++ lstrip s /\ Forall (fun c => Py_UNICODE_ISSPACE c = true) ws.
Proof.
  induction s as [|c s (ws & Hs & Hws)]; simpl; [by exists []|].
  destruct (Py_UNICODE_ISSPACE c) eqn:Hc; [|by exists []].
  exists (c :: ws). split; [simpl; congruence|by constructor].
Qed.

(** What [lstrip] returns does not start with white space. *)
Lemma lstrip_head s :
  match lstrip s with
  | [] => True
  | c :: _ => Py_UNICODE_ISSPACE c = false
  end.
Proof.
  induction s as [|c s IH]; simpl; [done|].
  destruct (Py_UNICODE_ISSPACE c) eqn:Hc; [done|]. exact Hc.
Qed.

Lemma lstrip_fixed s :
  match s with
  | [] => True
  | c :: _ => Py_UNICODE_ISSPACE c = false
  end ->
  lstrip s = s.
Proof. destruct s as [|c s]; simpl; [done|]. by intros ->. Qed.

Lemma lstrip_idempotent s : lstrip (lstrip s) = lstrip s.
Proof. apply lstrip_fixed, lstrip_head. Qed.

Lemma rstrip_app_space s ws :
  Forall (fun c => Py_UNICODE_ISSPACE c = true) ws -> rstrip (s ++ ws) = rstrip s.
Proof.
  intros Hws. unfold rstrip. rewrite rev_app_distr, lstrip_app_space; [done|].
  by apply List.Forall_rev.
Qed.

Lemma rstrip_decompose s :
  exists ws, s = rstrip s ++ ws /\ Forall (fun c => Py_UNICODE_ISSPACE c = true) ws.
Proof.
  destruct (lstrip_decompose (rev s)) as (ws & Hs & Hws).
  exists (rev ws). split; [|by apply List.Forall_rev].
  unfold rstrip. rewrite <- rev_app_distr, <- Hs. by rewrite rev_involutive.
Qed.

Lemma rstrip_idempotent s : rstrip (rstrip s) = rstrip s.
Proof. unfold rstrip. by rewrite rev_involutive, lstrip_idempotent. Qed.

Lemma strip_decompose s :
  exists ws1 ws2,
    s = ws1 ++ strip s ++ ws2
    /\ Forall (fun c => Py_UNICODE_ISSPACE c = true) ws1
    /\ Forall (fun c => Py_UNICODE_ISSPACE c = true) ws2.
Proof.
  destruct (lstrip_decompose s) as (ws1 & Hs & Hws1).
  destruct (rstrip_decompose (lstrip s)) as (ws2 & Hl & Hws2).
  exists ws1, ws2. unfold strip. by rewrite <- Hl.
Qed.

(** Trimming twice is trimming once. *)
Lemma strip_idempotent s : strip (strip s) = strip s.
Proof.
  unfold strip. set (a := lstrip s).
  assert (lstrip (rstrip a) = rstrip a) as ->; [|apply rstrip_idempotent].
  apply lstrip_fixed.
  destruct (rstrip_decompose a) as (ws & Ha & _).
  pose proof (lstrip_head s) as Hhead. fold a in Hhead.
  destruct (rstrip a) as [|c t]; [done|].
  rewrite Ha in Hhead. exact Hhead.
Qed.

Lemma strip_app_space_l ws s :
  Forall (fun c => Py_UNICODE_ISSPACE c = true) ws -> strip (ws ++ s) = strip s.
Proof. intros Hws. unfold strip. by rewrite lstrip_app_space. Qed.

Lemma strip_app_space_r s ws :
  Forall (fun c => Py_UNICODE_ISSPACE c = true) ws -> strip (s ++ ws) = strip s.
Proof.
  intros Hws. unfold strip. induction s as [|c s IH]; simpl.
  - by rewrite lstrip_all_space.
  - destruct (Py_UNICODE_ISSPACE c); [done|].
    by rewrite app_comm_cons, rstrip_app_space.
Qed.

Lemma strip_all_space ws :
  Forall (fun c => Py_UNICODE_ISSPACE c = true) ws -> strip ws = [].
Proof.
  intros Hws. rewrite <- (app_nil_r ws). by rewrite strip_app_space_l.
Qed.

End Trimming.

(** ** Segments, parsing and city extraction *)

Section PartsFacts.

Implicit Types (c : N) (s t ws : pystr).

Lemma stripped_parts_cons_space c t :
  Py_UNICODE_ISSPACE c = true -> stripped_parts (c :: t) = stripped_parts t.
Proof.
  intros Hc. unfold stripped_parts. simpl.
  destruct (N.eqb_spec c comma) as [->|_]; [done|].
  pose proof (split_length_pos comma t) as Hpos.
  destruct (split comma t) as [|p ps]; [simpl in Hpos; lia|].
  simpl. f_equal. unfold strip. simpl. by rewrite Hc.
Qed.

Lemma stripped_parts_lstrip t : stripped_parts (lstrip t) = stripped_parts t.
Proof.
  induction t as [|c t IH]; simpl; [done|].
  destruct (Py_UNICODE_ISSPACE c) eqn:Hc; [|done].
  by rewrite IH, stripped_parts_cons_space.
Qed.

(** Appending characters that are not the separator extends the last
    piece. *)
Lemma split_app_no_sep sep s w :
  Forall (fun c => c <> sep) w ->
  exists init lst,
    split sep s = init ++ [lst] /\ split sep (s ++ w) = init ++ [lst ++ w].
Proof.
  intros Hw. induction s as [|c s (init & lst & Hs & Hsw)]; simpl.
  - exists [], []. split; [done|]. simpl. by apply split_sep_free.
  - destruct (N.eqb_spec c sep) as [->|_].
    + exists ([] :: init), lst. by rewrite Hs, Hsw.
    + rewrite Hs, Hsw. destruct init as [|p init]; simpl.
      * by exists [], (c :: lst).
      * by exists ((c :: p) :: init), lst.
Qed.

Lemma space_not_comma ws :
  Forall (fun c => Py_UNICODE_ISSPACE c = true) ws -> Forall (fun c => c <> comma) ws.
Proof. intros H. eapply Forall_impl; [exact H|]. by intros c Hc ->. Qed.

Lemma stripped_parts_app_space s ws :
  Forall (fun c => Py_UNICODE_ISSPACE c = true) ws ->
  stripped_parts (s ++ ws) = stripped_parts s.
Proof.
  intros Hws.
  destruct (split_app_no_sep comma s ws (space_not_comma ws Hws))
    as (init & lst & Hs & Hsw).
  unfold stripped_parts. rewrite Hs, Hsw, !List.map_app. simpl.
  by rewrite strip_app_space_r.
Qed.

(** Trimming a location first does not change its trimmed segments. *)
Lemma stripped_parts_strip t : stripped_parts (strip t) = stripped_parts t.
Proof.
  unfold strip.
  destruct (rstrip_decompose (lstrip t)) as (ws & Hl & Hws).
  rewrite <- (stripped_parts_lstrip t). rewrite Hl at 2.
  by rewrite stripped_parts_app_space.
Qed.

(** Every trimmed segment is clean. *)
Lemma stripped_parts_clean s :
  Forall (fun f => clean_field (Some f)) (stripped_parts s).
Proof.
  unfold stripped_parts. apply List.Forall_map.
  pose proof (split_pieces comma (fun _ => True) s) as Hp.
  eapply Forall_impl; [apply Hp; by apply Forall_forall|].
  intros p Hpc. split; [apply strip_idempotent|].
  apply strip_Forall. eapply Forall_impl; [exact Hpc|]. by intros c [_ ?].
Qed.

End PartsFacts.

Section ParserFacts.

Implicit Types (c : N) (s t : pystr) (loc : cell).

Lemma split1_no_sep_prefix sep (p t : pystr) :
  contains sep p = false -> split1 sep (p ++ sep :: t) = [p; t].
Proof.
  unfold contains. induction p as [|c p IH]; simpl.
  - by rewrite N.eqb_refl.
  - rewrite (N.eqb_sym sep c). destruct (c =? sep); simpl; [done|].
    intros H. by rewrite (IH H).
Qed.

Lemma contains_app_sep sep (p t : pystr) : contains sep (p ++ sep :: t) = true.
Proof.
  unfold contains. rewrite List.existsb_app. simpl.
  by rewrite N.eqb_refl, orb_true_r.
Qed.

(** The city of a list of trimmed segments: the second one. *)
Lemma extract_city_no_gt s :
  contains Geocoding.gt_sign s = false ->
  Geocoding.extract_city (Some s)
  = Ok (match stripped_parts s with _ :: v :: _ => Some v | _ => None end).
Proof.
  intros Hgt. unfold Geocoding.extract_city. rewrite Hgt. simpl.
  by destruct (stripped_parts s) as [|m [|v rest]].
Qed.

(** X1. [extract_city] returns on every input, missing or any string: the
    index [1] after [split(">", 1)] is covered by the test [">" in loc]. What
    it returns is null or a city that is trimmed and holds no comma. *)
Theorem extract_city_returns_clean loc :
  exists v, Geocoding.extract_city loc = Ok v /\ clean_field v.
Proof.
  destruct loc as [s|]; [|by exists None].
  assert (forall t, exists v,
    (if (2 <=? length (stripped_parts t))%nat
     then city ← getitem (stripped_parts t) 1; Ok (Some city)
     else Ok None) = Ok v /\ clean_field v) as Hparts.
  { intros t. pose proof (stripped_parts_clean t) as Hc.
    destruct (stripped_parts t) as [|m [|v rest]]; [by exists None..|].
    exists (Some v). split; [done|].
    by inversion Hc as [|? ? _ Hc']; inversion Hc'. }
  unfold Geocoding.extract_city. destruct (contains Geocoding.gt_sign s) eqn:Hgt; simpl.
  - destruct (split1_contains _ _ Hgt) as (a & b & ->). simpl. apply Hparts.
  - apply Hparts.
Qed.

(** X2. On a location without [>] (and on the missing one) the city
    [extract_city] geocodes is the city both versions of [parse_location]
    show. *)
Theorem extract_city_is_parsed_city loc :
  (forall s, loc = Some s -> contains Geocoding.gt_sign s = false) ->
  exists p p',
    Carte.parse_location loc = Ok p
    /\ CarteMusees.parse_location loc = Ok p'
    /\ Geocoding.extract_city loc = Ok (ville p)
    /\ Geocoding.extract_city loc = Ok (ville p').
Proof.
  intros Hgt. destruct loc as [s|]; [|by exists all_null, all_null].
  rewrite (extract_city_no_gt s (Hgt s eq_refl)).
  pose proof (carte_parse_cases s) as H1.
  pose proof (carte_musees_parse_cases s) as H2.
  destruct (stripped_parts s) as [|m [|v [|q rest]]]; [done|..];
    rewrite H1, H2; by eexists _, _.
Qed.

(** X3. [extract_city] drops everything up to the first [>]: after a prefix
    without [>] it returns the second trimmed segment of what follows, which
    is what it returns for the rest alone when the rest holds no [>]. *)
Theorem extract_city_skips_prefix (p t : pystr) :
  contains Geocoding.gt_sign p = false ->
  Geocoding.extract_city (Some (p ++ Geocoding.gt_sign :: t))
  = Ok (match stripped_parts t with _ :: v :: _ => Some v | _ => None end)
  /\ (contains Geocoding.gt_sign t = false ->
      Geocoding.extract_city (Some (p ++ Geocoding.gt_sign :: t)) = Geocoding.extract_city (Some t)).
Proof.
  intros Hp.
  assert (Geocoding.extract_city (Some (p ++ Geocoding.gt_sign :: t))
          = Ok (match stripped_parts t with _ :: v :: _ => Some v | _ => None end))
    as Heq.
  { unfold Geocoding.extract_city.
    rewrite contains_app_sep, (split1_no_sep_prefix _ _ _ Hp). simpl.
    rewrite stripped_parts_strip.
    by destruct (stripped_parts t) as [|m [|v rest]]. }
  split; [done|]. intros Ht. by rewrite Heq, (extract_city_no_gt t Ht).
Qed.

(** X4. Every field the two versions of [parse_location] return is null or
    a trimmed string without comma. *)
Theorem parse_location_fields_clean loc :
  exists p p',
    Carte.parse_location loc = Ok p
    /\ CarteMusees.parse_location loc = Ok p'
    /\ (clean_field (pays p) /\ clean_field (ville p) /\ clean_field (musee p))
    /\ (clean_field (pays p') /\ clean_field (ville p') /\ clean_field (musee p')).
Proof.
  destruct loc as [s|]; [|by exists all_null, all_null].
  pose proof (carte_parse_cases s) as H1.
  pose proof (carte_musees_parse_cases s) as H2.
  pose proof (stripped_parts_clean s) as Hc.
  destruct (stripped_parts s) as [|m [|v [|q rest]]]; [done|..];
    rewrite H1, H2; eexists _, _; (split; [done|]); (split; [done|]);
    cbn [pays ville musee].
  - apply Forall_cons in Hc as [Hm _]. by split_and!.
  - apply Forall_cons in Hc as [Hm Hc]. apply Forall_cons in Hc as [Hv _].
    by split_and!.
  - apply Forall_cons in Hc as [Hm Hc]. apply Forall_cons in Hc as [Hv Hc].
    apply Forall_cons in Hc as [Hq Hrest].
    split_and!; try done.
    clear -Hq Hrest. revert q Hq.
    induction Hrest as [|r rest Hr _ IH]; intros q Hq.
    + exact Hq.
    + rewrite last_cons_default. by apply IH.
Qed.

(** X5. On every input the two versions of [parse_location] return the same
    museum and the same city; the countries can differ only from four
    segments on. *)
Theorem parse_location_variants_same_museum_city loc :
  exists p p',
    Carte.parse_location loc = Ok p
    /\ CarteMusees.parse_location loc = Ok p'
    /\ musee p = musee p'
    /\ ville p = ville p'
    /\ (pays p = pays p' \/ (4 <= segments loc)%nat).
Proof.
  destruct loc as [s|];
    [|exists all_null, all_null; split_and!; (done || by left)].
  pose proof (carte_parse_cases s) as H1.
  pose proof (carte_musees_parse_cases s) as H2.
  pose proof (stripped_parts_length s) as Hlen.
  destruct (stripped_parts s) as [|m [|v [|q [|r rest]]]]; [done|..];
    rewrite H1, H2; eexists _, _; split_and!; try done; try by left.
  right. unfold segments. rewrite <- Hlen. simpl. lia.
Qed.

Lemma stripped_parts_clean_comma (m t : pystr) :
  clean_field (Some m) -> stripped_parts (m ++ comma :: t) = m :: stripped_parts t.
Proof.
  intros [Hm Hc]. unfold stripped_parts.
  rewrite split_app_sep by done. simpl. by rewrite Hm.
Qed.

Lemma stripped_parts_clean_single (m : pystr) :
  clean_field (Some m) -> stripped_parts m = [m].
Proof.
  intros [Hm Hc]. unfold stripped_parts.
  rewrite split_sep_free by done. simpl. by rewrite Hm.
Qed.

Lemma stripped_parts_comma_space (m t : pystr) :
  clean_field (Some m) -> stripped_parts (m ++ py ", " ++ t) = m :: stripped_parts t.
Proof.
  intros Hm. change (py ", " ++ t) with (comma :: 32 :: t).
  rewrite stripped_parts_clean_comma by done.
  by rewrite stripped_parts_cons_space.
Qed.

(** X6. A location written as museum, city and country separated by a
    comma and a space parses back to these three fields, in both versions,
    when each field is trimmed and holds no comma; likewise with two fields
    (no country) and with one (museum only). *)
Theorem parse_location_round_trip (m v c : pystr) :
  clean_field (Some m) -> clean_field (Some v) -> clean_field (Some c) ->
  (Carte.parse_location (Some (m ++ py ", " ++ v ++ py ", " ++ c))
   = Ok (mkParsed (Some c) (Some v) (Some m))
   /\ CarteMusees.parse_location (Some (m ++ py ", " ++ v ++ py ", " ++ c))
      = Ok (mkParsed (Some c) (Some v) (Some m)))
  /\ (Carte.parse_location (Some (m ++ py ", " ++ v))
      = Ok (mkParsed None (Some v) (Some m))
      /\ CarteMusees.parse_location (Some (m ++ py ", " ++ v))
         = Ok (mkParsed None (Some v) (Some m)))
  /\ (Carte.parse_location (Some m) = Ok (mkParsed None None (Some m))
      /\ CarteMusees.parse_location (Some m) = Ok (mkParsed None None (Some m))).
Proof.
  intros Hm Hv Hc. split_and!.
  - pose proof (carte_parse_cases (m ++ py ", " ++ v ++ py ", " ++ c)) as H.
    by rewrite !stripped_parts_comma_space, stripped_parts_clean_single in H.
  - pose proof (carte_musees_parse_cases (m ++ py ", " ++ v ++ py ", " ++ c)) as H.
    by rewrite !stripped_parts_comma_space, stripped_parts_clean_single in H.
  - pose proof (carte_parse_cases (m ++ py ", " ++ v)) as H.
    by rewrite !stripped_parts_comma_space, stripped_parts_clean_single in H.
  - pose proof (carte_musees_parse_cases (m ++ py ", " ++ v)) as H.
    by rewrite !stripped_parts_comma_space, stripped_parts_clean_single in H.
  - pose proof (carte_parse_cases m) as H.
    by rewrite stripped_parts_clean_single in H.
  - pose proof (carte_musees_parse_cases m) as H.
    by rewrite stripped_parts_clean_single in H.
Qed.

End ParserFacts.

Lemma clean_field_decide (f : pystr) :
  strip f = f -> List.forallb (fun c => negb (c =? comma)) f = true ->
  clean_field (Some f).
Proof.
  intros Hs Hc. split; [done|]. apply Forall_forall. intros c Hin.
  apply list_elem_of_In in Hin. apply (proj1 (forallb_forall _ _) Hc) in Hin.
  apply negb_true_iff in Hin. by apply N.eqb_neq.
Qed.

Lemma extract_city_is_parsed_city_witness :
  (forall s, Some (py "Louvre, Paris, France") = Some s ->
             contains Geocoding.gt_sign s = false)
  /\ exists p p',
      Carte.parse_location (Some (py "Louvre, Paris, France")) = Ok p
      /\ CarteMusees.parse_location (Some (py "Louvre, Paris, France")) = Ok p'
      /\ Geocoding.extract_city (Some (py "Louvre, Paris, France")) = Ok (ville p)
      /\ Geocoding.extract_city (Some (py "Louvre, Paris, France")) = Ok (ville p').
Proof.
  assert (forall s, Some (py "Louvre, Paris, France") = Some s ->
                    contains Geocoding.gt_sign s = false) as H.
  { intros s [= <-]. reflexivity. }
  split; [exact H|].
  exact (extract_city_is_parsed_city (Some (py "Louvre, Paris, France")) H).
Defined.

Lemma extract_city_skips_prefix_witness :
  contains Geocoding.gt_sign (py "musee ") = false
  /\ contains Geocoding.gt_sign (py " Orsay, Paris, France") = false
  /\ Geocoding.extract_city
       (Some (py "musee " ++ Geocoding.gt_sign :: py " Orsay, Paris, France"))
     = Geocoding.extract_city (Some (py " Orsay, Paris, France")).
Proof.
  split; [reflexivity|]. split; [reflexivity|].
  apply (proj2 (extract_city_skips_prefix (py "musee ") (py " Orsay, Paris, France")
                  eq_refl)).
  reflexivity.
Defined.

Lemma parse_location_round_trip_witness :
  clean_field (Some (py "Louvre")) /\ clean_field (Some (py "Paris"))
  /\ clean_field (Some (py "France"))
  /\ Carte.parse_location
       (Some (py "Louvre" ++ py ", " ++ py "Paris" ++ py ", " ++ py "France"))
     = Ok (mkParsed (Some (py "France")) (Some (py "Paris")) (Some (py "Louvre"))).
Proof.
  assert (clean_field (Some (py "Louvre"))) as Hm
    by (apply clean_field_decide; reflexivity).
  assert (clean_field (Some (py "Paris"))) as Hv
    by (apply clean_field_decide; reflexivity).
  assert (clean_field (Some (py "France"))) as Hc
    by (apply clean_field_decide; reflexivity).
  split_and!; [done..|].
  exact (proj1 (proj1 (parse_location_round_trip _ _ _ Hm Hv Hc))).
Defined.

Section RunFacts.

Import Geocoding.

Context {World : Type}.
Variable geocode : pystr -> World -> result (option Location) * World.

Implicit Types (env : Env (World := World)) (city : pystr) (x : cell).
Implicit Types (col villes : list cell).

(** What every lookup returns holds of every entry the loop writes. *)
Lemma resolve_loop_values (P : cell -> coord -> Prop) :
  (forall x env, exists v env',
      get_city_coordinates geocode x None env = (Ok v, env') /\ P x v) ->
  forall villes (d : gmap (option (list N)) coord) env,
  exists d' env',
    resolve_loop geocode villes d env = (Ok d', env')
    /\ (forall x, x ∈ villes -> exists v, d' !! x = Some v /\ P x v)
    /\ (forall x, x ∉ villes -> d' !! x = d !! x).
Proof.
  intros Hcall villes. induction villes as [|x0 l IH]; intros d env; simpl.
  - exists d, env. split_and!; [done| |done]. intros x Hx. by apply elem_of_nil in Hx.
  - unfold mbind, M_bind.
    destruct (Hcall x0 env) as ([lat lon] & env1 & -> & HP).
    destruct (IH (<[x0 := (lat, lon)]> d) env1) as (d' & env' & -> & Hin & Hout).
    exists d', env'. split_and!; [done| |].
    + intros x [->|Hx]%elem_of_cons; [|by apply Hin].
      destruct (decide (x0 ∈ l)) as [Hl|Hl]; [by apply Hin|].
      exists (lat, lon). split; [|done]. by rewrite (Hout x0 Hl), lookup_insert_eq.
    + intros x Hx. apply not_elem_of_cons in Hx as [Hne Hx].
      by rewrite (Hout x Hx), lookup_insert_ne.
Qed.

(** Each lookup of a city prints one line. *)
Lemma resolve_loop_stdout villes (d : gmap (option (list N)) coord) env :
  Forall (fun x : cell => is_Some x) villes ->
  exists d' env',
    resolve_loop geocode villes d env = (Ok d', env')
    /\ length (stdout env') = (length (stdout env) + length villes)%nat.
Proof.
  intros Hsome. revert d env.
  induction Hsome as [|x0 l [city ->] _ IH]; intros d env; simpl.
  - exists d, env. split; [done|lia].
  - unfold mbind, M_bind. rewrite get_city_coordinates_unfold.
    destruct (manual_fix_villes !! city) as [[lat lon]|].
    + edestruct IH as (d' & env' & -> & Hlen). exists d', env'.
      split; [done|]. rewrite Hlen. simpl. rewrite length_app. simpl. lia.
    + destruct (geocode (key city None) (world env)) as [[[loc|]|e] w];
        edestruct IH as (d' & env' & -> & Hlen); exists d', env';
        (split; [done|]); rewrite Hlen; simpl; rewrite length_app; simpl; lia.
Qed.

Lemma villes_unique_all_some col :
  Forall (fun x : cell => is_Some x) (unique (dropna col)).
Proof.
  apply Forall_forall. intros x Hx.
  apply villes_unique_cities in Hx as (city & -> & _). by eexists.
Qed.

Lemma elem_of_cities col city : city ∈ cities col <-> Some city ∈ col.
Proof.
  unfold cities. rewrite elem_of_list_to_set, list_elem_of_omap. split.
  - intros (y & Hy & Hid). simpl in Hid. by subst y.
  - intros H. by exists (Some city).
Qed.

Lemma elem_of_to_geocode villes city :
  city ∈ to_geocode villes
  <-> Some city ∈ villes /\ manual_fix_villes !! city = None.
Proof.
  unfold to_geocode. rewrite list_elem_of_omap. split.
  - intros ([c|] & Hx & Hc); [|done].
    destruct (manual_fix_villes !! c) eqn:E; [done|]. by injection Hc as ->.
  - intros [Hin Hfix]. exists (Some city). by rewrite Hfix.
Qed.

(** X7. The queries of one run of the resolver are exactly the cities of the
    column that the override table lacks, each once, in the order of their
    first occurrence in the column. *)
Theorem resolve_queries_exact col env :
  exists coords_dict env',
    resolve geocode col env = (Ok coords_dict, env')
    /\ geocode_calls env' = geocode_calls env ++ to_geocode (unique (dropna col))
    /\ NoDup (to_geocode (unique (dropna col)))
    /\ (forall city,
          city ∈ to_geocode (unique (dropna col))
          <-> Some city ∈ col /\ manual_fix_villes !! city = None).
Proof.
  unfold resolve.
  destruct (resolve_loop_run geocode (unique (dropna col)) ∅ env)
    as (d & env' & Hrun & _ & Hc & _).
  exists d, env'. split_and!; [done..| |].
  - apply to_geocode_NoDup, NoDup_unique.
  - intros city. rewrite elem_of_to_geocode, elem_of_unique, elem_of_dropna.
    naive_solver.
Qed.

(** X8. The mapping a run of the resolver returns has exactly the distinct
    cities of the column as keys (never the null city), and the run prints
    one line per distinct city. *)
Theorem resolve_keys_and_lines col env :
  exists coords_dict env',
    resolve geocode col env = (Ok coords_dict, env')
    /\ (forall x, is_Some (coords_dict !! x)
                  <-> exists city, x = Some city /\ Some city ∈ col)
    /\ size coords_dict = size (cities col)
    /\ length (stdout env') = (length (stdout env) + size (cities col))%nat.
Proof.
  unfold resolve.
  destruct (resolve_loop_run geocode (unique (dropna col)) ∅ env)
    as (d & env' & Hrun & _ & _ & Hdom).
  destruct (resolve_loop_stdout (unique (dropna col)) ∅ env
              (villes_unique_all_some col)) as (d2 & env2 & Hrun2 & Hlen).
  rewrite Hrun in Hrun2. injection Hrun2 as <- <-.
  exists d, env'. split_and!; [done| | |].
  - intros x. rewrite <- elem_of_dom, Hdom, dom_empty_L, elem_of_union.
    rewrite elem_of_list_to_set, villes_unique_cities.
    setoid_rewrite elem_of_cities. set_solver.
  - rewrite <- size_dom, Hdom, dom_empty_L, (left_id_L ∅ (∪)).
    rewrite size_list_to_set by apply NoDup_unique.
    apply villes_unique_length.
  - by rewrite Hlen, villes_unique_length.
Qed.

(** The entry of every city of the column, for a property [P] that every
    lookup's result has. *)
Lemma script_rows (P : cell -> coord -> Prop) lieu env :
  (forall x env, exists v env',
      get_city_coordinates geocode x None env = (Ok v, env') /\ P x v) ->
  P None (None, None) ->
  exists df env',
    script geocode lieu env = (Ok df, env')
    /\ forall i loc, lieu !! i = Some loc ->
         exists (v : cell) (c : coord),
           extract_city loc = Ok v /\ P v c
           /\ latitude_column df !! i = Some (fst c)
           /\ longitude_column df !! i = Some (snd c).
Proof.
  intros Hcall HNone.
  destruct (script_run geocode lieu env)
    as (villes & d & env' & Hap & Hres & HdNone & ->).
  destruct (apply_returns extract_city lieu extract_city_returns)
    as (villes' & Hap' & _ & Hnth).
  assert (villes' = villes) as -> by congruence.
  unfold resolve in Hres.
  destruct (resolve_loop_values P Hcall (unique (dropna villes)) ∅ env)
    as (d2 & env2 & Hrun & Hin & _).
  rewrite Hres in Hrun. injection Hrun as <- <-.
  eexists _, env'. split; [done|].
  cbn [latitude_column longitude_column]. intros i loc Hi.
  destruct (Hnth i loc Hi) as (v & Hv & Hvi).
  destruct (assemble_lookup villes d i v Hvi) as [Hlat Hlon].
  rewrite Hlat, Hlon. unfold coords_get.
  destruct v as [city|].
  - destruct (Hin (Some city)) as (c & Hc & HP).
    { apply elem_of_unique, elem_of_dropna. split; [|done].
      apply list_elem_of_lookup. by exists i. }
    exists (Some city), c. rewrite Hc. by split_and!.
  - exists None, (None, None). rewrite HdNone. by split_and!.
Qed.

(** X9. Whatever the service does, a record whose extracted city is a key of
    the override table ends with the table's latitude and longitude. *)
Theorem script_override_rows lieu env i loc city lat lon :
  lieu !! i = Some loc ->
  extract_city loc = Ok (Some city) ->
  manual_fix_villes !! city = Some (lat, lon) ->
  exists df env',
    script geocode lieu env = (Ok df, env')
    /\ latitude_column df !! i = Some (Some lat)
    /\ longitude_column df !! i = Some (Some lon).
Proof.
  intros Hi Hloc Hfix.
  destruct (script_rows
    (fun x c => forall city lat lon, x = Some city ->
                manual_fix_villes !! city = Some (lat, lon) ->
                c = (Some lat, Some lon)) lieu env) as (df & env' & Hrun & Hrows).
  - intros x env0. rewrite get_city_coordinates_unfold.
    destruct x as [c|]; [|by eexists _, _].
    destruct (manual_fix_villes !! c) as [[la lo]|] eqn:E.
    + eexists _, _. split; [done|]. intros ? ? ? [= <-]. congruence.
    + destruct (geocode (key c None) (world env0)) as [[[l|]|e] w];
        eexists _, _; (split; [done|]); intros ? ? ? [= <-]; congruence.
  - done.
  - exists df, env'. split; [done|].
    destruct (Hrows i loc Hi) as (v & c & Hv & HP & Hlat & Hlon).
    rewrite Hloc in Hv. injection Hv as <-.
    rewrite (HP city lat lon eq_refl Hfix) in Hlat, Hlon. done.
Qed.

(** X10. With a service whose answer depends on the query alone, the
    latitude and longitude of every record are those of [expected_coords]
    for the record's extracted city: the override table's pair, else the
    service's answer for that city, else null. *)
Theorem script_coordinates (answer : pystr -> result (option Location)) lieu env :
  (forall q w, fst (geocode q w) = answer q) ->
  exists df env',
    script geocode lieu env = (Ok df, env')
    /\ forall i loc, lieu !! i = Some loc ->
         exists v : cell,
           extract_city loc = Ok v
           /\ latitude_column df !! i = Some (fst (expected_coords answer v))
           /\ longitude_column df !! i = Some (snd (expected_coords answer v)).
Proof.
  intros Hpure.
  destruct (script_rows (fun x c => c = expected_coords answer x) lieu env)
    as (df & env' & Hrun & Hrows).
  - intros x env0. rewrite get_city_coordinates_unfold.
    destruct x as [c|]; [|by eexists _, _]. simpl.
    destruct (manual_fix_villes !! c) as [[la lo]|] eqn:E; [by eexists _, _|].
    pose proof (Hpure c (world env0)) as Ha. unfold key.
    destruct (geocode c (world env0)) as [[[l|]|e] w]; simpl in Ha;
      rewrite <- Ha; by eexists _, _.
  - done.
  - exists df, env'. split; [done|]. intros i loc Hi.
    destruct (Hrows i loc Hi) as (v & c & Hv & -> & Hlat & Hlon). by exists v.
Qed.

End RunFacts.

Lemma script_override_rows_witness :
  [Some (py "Louvre, Paris, France"); None] !! 0%nat
  = Some (Some (py "Louvre, Paris, France"))
  /\ Geocoding.extract_city (Some (py "Louvre, Paris, France"))
     = Ok (Some (py "Paris"))
  /\ Geocoding.manual_fix_villes !! py "Paris"
     = Some (48.856613, 2.352222)%float
  /\ exists df env',
      Geocoding.script Geocoding.demo_geocode
        [Some (py "Louvre, Paris, France"); None] (Geocoding.start 0%nat)
      = (Ok df, env')
      /\ Geocoding.latitude_column df !! 0%nat = Some (Some 48.856613%float)
      /\ Geocoding.longitude_column df !! 0%nat = Some (Some 2.352222%float).
Proof.
  split; [reflexivity|]. split; [reflexivity|]. split; [vm_compute; reflexivity|].
  apply (script_override_rows Geocoding.demo_geocode
           [Some (py "Louvre, Paris, France"); None] (Geocoding.start 0%nat)
           0%nat (Some (py "Louvre, Paris, France")) (py "Paris")).
  - reflexivity.
  - reflexivity.
  - vm_compute; reflexivity.
Defined.

Lemma script_coordinates_witness :
  (forall q w, fst (Geocoding.demo_geocode q w)
               = fst (Geocoding.demo_geocode q 0%nat))
  /\ exists df env',
      Geocoding.script Geocoding.demo_geocode
        [Some (py "Beaux-Arts, Lyon, France")] (Geocoding.start 0%nat)
      = (Ok df, env')
      /\ forall i loc, [Some (py "Beaux-Arts, Lyon, France")] !! i = Some loc ->
           exists v : cell,
             Geocoding.extract_city loc = Ok v
             /\ Geocoding.latitude_column df !! i
                = Some (fst (expected_coords
                               (fun q => fst (Geocoding.demo_geocode q 0%nat)) v))
             /\ Geocoding.longitude_column df !! i
                = Some (snd (expected_coords
                               (fun q => fst (Geocoding.demo_geocode q 0%nat)) v)).
Proof.
  assert (forall q w, fst (Geocoding.demo_geocode q w)
                      = fst (Geocoding.demo_geocode q 0%nat)) as Hpure.
  { intros q w. unfold Geocoding.demo_geocode. by repeat case_bool_decide. }
  split; [exact Hpure|].
  exact (script_coordinates Geocoding.demo_geocode
           (fun q => fst (Geocoding.demo_geocode q 0%nat))
           [Some (py "Beaux-Arts, Lyon, France")] (Geocoding.start 0%nat) Hpure).
Defined.

Section Words.

Implicit Types (c : N) (s t z us : pystr) (parts : list pystr).

Lemma split_snoc_sep sep s : split sep (s ++ [sep]) = split sep s ++ [[]].
Proof.
  induction s as [|c s IH]; simpl.
  - by rewrite N.eqb_refl.
  - destruct (c =? sep); [by rewrite IH|].
    rewrite IH. pose proof (split_length_pos sep s) as Hpos.
    by destruct (split sep s) as [|p ps]; [simpl in Hpos; lia|].
Qed.

Lemma pieces_app_underscores z us :
  Forall (fun c => c = underscore) us ->
  List.filter nonempty (split underscore (z ++ us))
  = List.filter nonempty (split underscore z).
Proof.
  intros Hus. revert z. induction Hus as [|c us -> _ IH]; intros z.
  - by rewrite app_nil_r.
  - rewrite (cons_middle underscore z us), app_assoc, IH, split_snoc_sep.
    rewrite List.filter_app. simpl. by rewrite app_nil_r.
Qed.

Lemma pieces_underscores_app us z :
  Forall (fun c => c = underscore) us ->
  List.filter nonempty (split underscore (us ++ z))
  = List.filter nonempty (split underscore z).
Proof. induction 1 as [|c us -> _ IH]; simpl; [done|]. exact IH. Qed.

Lemma pieces_parts z :
  Forall (fun p => p <> [] /\ Forall (fun c => c <> underscore) p)
         (List.filter nonempty (split underscore z)).
Proof.
  pose proof (split_pieces underscore (fun _ => True) z) as Hp.
  pose proof (filter_nonempty_spec (split underscore z)) as Hne.
  assert (Forall (Forall (fun c => c <> underscore))
            (List.filter nonempty (split underscore z))) as Hf.
  { apply filter_Forall. eapply Forall_impl; [apply Hp; by apply Forall_forall|].
    intros p Hq. eapply Forall_impl; [exact Hq|]. by intros c [_ ?]. }
  revert Hne Hf. generalize (List.filter nonempty (split underscore z)).
  intros parts Hne Hf. induction Hne as [|p ps Hp' _ IH]; [constructor|].
  apply Forall_cons in Hf as [Hf1 Hf2]. constructor; [done|by apply IH].
Qed.

(** Parts without underscore can be read back from the joined name. *)
Lemma join_parts_inj parts parts' :
  Forall (fun p => p <> [] /\ Forall (fun c => c <> underscore) p) parts ->
  Forall (fun p => p <> [] /\ Forall (fun c => c <> underscore) p) parts' ->
  join [underscore] parts = join [underscore] parts' -> parts = parts'.
Proof.
  intros H1 H2 Heq.
  assert (forall l, Forall (fun p => p <> [] /\ Forall (fun c => c <> underscore) p) l ->
            Forall (fun p : pystr => p <> []) l
            /\ Forall (Forall (fun c => c <> underscore)) l) as Hsplit.
  { intros l Hl. split; (eapply Forall_impl; [exact Hl|]); by intros p [? ?]. }
  destruct (Hsplit _ H1) as [Hn1 Hu1]. destruct (Hsplit _ H2) as [Hn2 Hu2].
  destruct parts as [|p ps], parts' as [|q qs]; [done| | |].
  - symmetry in Heq. by apply join_nonempty in Heq.
  - by apply join_nonempty in Heq.
  - rewrite <- (split_join underscore (p :: ps)) by done.
    rewrite <- (split_join underscore (q :: qs)) by done.
    by rewrite Heq.
Qed.

Context {U : Unicode} {HU : AsciiFaithful U}.

Lemma plain_lower_plain c : plain_ascii c = true -> plain_ascii (ascii_lower c) = true.
Proof. intros H. char_arith. Qed.

(** On plain ASCII the normalised name is its words joined by underscores. *)
Lemma normalize_col_words s :
  List.forallb plain_ascii s = true ->
  _normalize_col s = join [underscore] (words s).
Proof.
  intros Hs.
  assert (Forall (fun c => plain_ascii c = true) s) as Hs'.
  { apply Forall_forall. intros c Hc. apply list_elem_of_In in Hc.
    by apply (proj1 (forallb_forall _ _) Hs). }
  rewrite normalize_col_stages, unicode_fold_ascii
    by (eapply Forall_impl; [exact Hs'|apply plain_ascii_ascii]).
  unfold collapse, words. rewrite replace_separators. f_equal.
  set (x := List.map ascii_lower s).
  assert (Forall (fun c => plain_ascii c = true) x) as Hx.
  { apply List.Forall_map. eapply Forall_impl; [exact Hs'|apply plain_lower_plain]. }
  rewrite <- (List.map_map ascii_lower
    (fun c => if is_separator c then underscore else c) s). fold x.
  destruct (strip_decompose x) as (ws1 & ws2 & Hdec & Hws1 & Hws2).
  assert (forall ws, Forall (fun c => Py_UNICODE_ISSPACE c = true) ws ->
            Forall (fun c => plain_ascii c = true) ws ->
            Forall (fun c => c = underscore)
              (List.map (fun c => if is_separator c then underscore else c) ws))
    as Hsep.
  { intros ws Hsp Hpl. apply List.Forall_map.
    induction Hsp as [|c ws Hc _ IH]; [constructor|].
    apply Forall_cons in Hpl as [Hpc Hpl]. constructor; [|by apply IH].
    assert (c = 32) as ->; [|reflexivity].
    unfold plain_ascii in Hpc. rewrite Hc in Hpc. simpl in Hpc.
    apply andb_true_iff in Hpc as [_ Hpc]. by apply N.eqb_eq. }
  rewrite Hdec in Hx. apply Forall_app in Hx as [Hx1 Hx].
  apply Forall_app in Hx as [_ Hx2].
  rewrite Hdec at 2. rewrite !List.map_app.
  rewrite pieces_underscores_app by by apply Hsep.
  by rewrite pieces_app_underscores by by apply Hsep.
Qed.

End Words.

(** X11. With tables that are right on ASCII, and for ASCII names whose only
    white space is the space character: the normalised name is the name's
    words joined by underscores, and two names get the same normalised name
    exactly when they have the same words; letter case, the choice of
    separator and repeated or outer separators make no difference. *)
Theorem normalize_col_same_iff_same_words (U : Unicode) (s t : pystr) :
  AsciiFaithful U ->
  List.forallb plain_ascii s = true ->
  List.forallb plain_ascii t = true ->
  _normalize_col s = join [underscore] (words s)
  /\ (_normalize_col s = _normalize_col t <-> words s = words t).
Proof.
  intros HU Hs Ht. split; [by apply normalize_col_words|].
  rewrite !normalize_col_words by done. split; [|by intros ->].
  apply join_parts_inj; apply pieces_parts.
Qed.

Lemma normalize_col_same_iff_same_words_witness :
  List.forallb plain_ascii (py "Lieu de conservation") = true
  /\ List.forallb plain_ascii (py " LIEU-de__Conservation.") = true
  /\ _normalize_col (U := latin1) (py "Lieu de conservation")
     = _normalize_col (U := latin1) (py " LIEU-de__Conservation.").
Proof.
  split; [reflexivity|]. split; [reflexivity|].
  apply (proj2 (normalize_col_same_iff_same_words latin1
                  (py "Lieu de conservation") (py " LIEU-de__Conservation.")
                  latin1_ascii_faithful eq_refl eq_refl)).
  reflexivity.
Defined.

(** ** Paths *)

Section Substrings.

Implicit Types (c : N) (s t old new sep pat : pystr).

Lemma startswith_app pat s : startswith pat (pat ++ s) = true.
Proof. induction pat as [|p pat IH]; simpl; [done|]. by rewrite N.eqb_refl. Qed.

Lemma startswith_length pat s :
  startswith pat s = true -> (length pat <= length s)%nat.
Proof.
  revert s. induction pat as [|p pat IH]; intros [|c s]; simpl; try done; [lia|].
  intros [_ H]%andb_true_iff. apply IH in H. lia.
Qed.

(** Characters to pass are passed. *)
Lemma split_from_skip sep pre s :
  split_from sep (length pre) (pre ++ s) = split_from sep 0 s.
Proof.
  induction pre as [|c pre IH]; simpl; [done|]. by rewrite IH.
Qed.

Lemma replace_from_skip old new pre s :
  replace_from old new (length pre) (pre ++ s) = replace_from old new 0 s.
Proof.
  induction pre as [|c pre IH]; simpl; [done|]. by rewrite IH.
Qed.

(** A string that starts with the separator splits into an empty piece and
    the pieces of the rest. *)
Lemma split_str_sep_app c sep s :
  split_str (c :: sep) ((c :: sep) ++ s) = [] :: split_str (c :: sep) s.
Proof.
  unfold split_str.
  change (((c :: sep) ++ s)) with (c :: (sep ++ s)).
  cbn [split_from]. change (c :: sep ++ s) with ((c :: sep) ++ s).
  rewrite startswith_app.
  replace (length (c :: sep) - 1)%nat with (length sep) by (simpl; lia).
  by rewrite split_from_skip.
Qed.

(** Without an occurrence of the separator there is a single piece. *)
Lemma split_str_no_occurrence sep s :
  occurs sep s = false -> split_str sep s = [s].
Proof.
  unfold split_str. induction s as [|c s IH]; [done|].
  cbn [occurs split_from]. intros [H1 H2]%orb_false_elim.
  rewrite H1, (IH H2). done.
Qed.

(** Encoding spaces as ["%20"] keeps every pattern without space and
    percent sign where it was. *)
Lemma startswith_encoded pat s :
  Forall (fun c => c <> 32 /\ c <> 37) pat ->
  startswith pat (replace 32 (py "%20") s) = startswith pat s.
Proof.
  intros Hpat. revert s. induction Hpat as [|p pat [Hp1 Hp2] _ IH]; intros s.
  - by destruct (replace 32 (py "%20") s), s.
  - destruct s as [|c s]; [done|]. unfold replace. cbn [List.flat_map].
    fold (replace 32 (py "%20") s).
    destruct (N.eqb_spec c 32) as [->|Hc].
    + change (py "%20" ++ replace 32 (py "%20") s)
        with (37 :: 50 :: 48 :: replace 32 (py "%20") s).
      cbn [startswith].
      destruct (N.eqb_spec p 37); [done|]. by destruct (N.eqb_spec p 32).
    + cbn [app startswith]. by rewrite IH.
Qed.

Lemma occurs_encoded p pat s :
  Forall (fun c => c <> 32 /\ c <> 37) (p :: pat) ->
  p <> 50 -> p <> 48 ->
  occurs (p :: pat) s = false ->
  occurs (p :: pat) (replace 32 (py "%20") s) = false.
Proof.
  intros Hpat H2 H0. induction s as [|c s IH]; [done|].
  cbn [occurs]. intros [H1 Hs]%orb_false_elim. specialize (IH Hs).
  pose proof (startswith_encoded (p :: pat) (c :: s) Hpat) as Henc.
  unfold replace in *. cbn [List.flat_map] in *.
  destruct (N.eqb_spec c 32) as [->|Hc].
  - change (py "%20" ++ ?x) with (37 :: 50 :: 48 :: x) in *.
    cbn [occurs]. rewrite Henc, H1. cbn [orb].
    assert (forall x, startswith (p :: pat) (50 :: x) = false) as Ha.
    { intros x. cbn [startswith]. by destruct (N.eqb_spec p 50). }
    assert (forall x, startswith (p :: pat) (48 :: x) = false) as Hb.
    { intros x. cbn [startswith]. by destruct (N.eqb_spec p 48). }
    by rewrite Ha, Hb.
  - cbn [app occurs] in *. by rewrite Henc, H1.
Qed.

Lemma startswith_pct20_encoded c s :
  startswith (py "%20") (c :: s) = false ->
  startswith (py "%20") (c :: replace 32 (py "%20") s) = false.
Proof.
  change (startswith (py "%20") (c :: s))
    with ((37 =? c) && startswith [50; 48] s).
  change (startswith (py "%20") (c :: replace 32 (py "%20") s))
    with ((37 =? c) && startswith [50; 48] (replace 32 (py "%20") s)).
  rewrite startswith_encoded; [done|]. repeat constructor; done.
Qed.

(** Decoding ["%20"] undoes the encoding of spaces when the string holds no
    ["%20"] of its own. *)
Lemma decode_encode s :
  occurs (py "%20") s = false ->
  replace_str (py "%20") (py " ") (replace 32 (py "%20") s) = s.
Proof.
  unfold replace_str. induction s as [|c s IH]; [done|].
  cbn [occurs]. intros [H1 H2]%orb_false_elim. specialize (IH H2).
  pose proof (startswith_pct20_encoded c s H1) as Hc20.
  unfold replace in *. cbn [List.flat_map].
  destruct (N.eqb_spec c 32) as [->|Hc].
  - change (py "%20" ++ ?x) with (37 :: ([50; 48] ++ x)).
    cbn [replace_from]. change (37 :: [50; 48] ++ ?x) with (py "%20" ++ x).
    rewrite startswith_app.
    change (length (py "%20") - 1)%nat with (length [50; 48]).
    by rewrite replace_from_skip, IH.
  - cbn [app replace_from]. by rewrite Hc20, IH.
Qed.

End Substrings.

Section Paths.

Implicit Types (s d pathname : pystr).

Lemma startswith_inv pat s :
  startswith pat s = true -> exists rest, s = pat ++ rest.
Proof.
  revert s. induction pat as [|p pat IH]; intros s; simpl.
  - by exists s.
  - destruct s as [|c s]; [done|].
    intros [->%N.eqb_eq [rest ->]%IH]%andb_true_iff. by exists rest.
Qed.

Lemma split_from_length_pos sep skip s : (1 <= length (split_from sep skip s))%nat.
Proof.
  revert skip. induction s as [|c s IH]; intros skip; simpl; [lia|].
  destruct skip; [|apply IH].
  destruct (startswith sep (c :: s)); simpl; [lia|].
  specialize (IH 0%nat). destruct (split_from sep 0 s); simpl in *; lia.
Qed.

(** After a non-empty prefix that is the separator, index 1 exists. *)
Lemma getitem_split_prefix c sep s :
  startswith (c :: sep) s = true ->
  exists piece, getitem (split_str (c :: sep) s) 1 = Ok piece.
Proof.
  intros [rest ->]%startswith_inv. rewrite split_str_sep_app.
  pose proof (split_from_length_pos (c :: sep) 0 rest) as Hpos.
  unfold split_str. destruct (split_from (c :: sep) 0 rest) as [|p ps];
    [simpl in Hpos; lia|]. by exists p.
Qed.

(** X12. The path the dashboard builds for a domain's button selects that
    domain again, provided the domain's name holds neither ["%20"] nor
    ["/dashboard-oeuvres/"]. *)
Theorem dashboard_domain_path_round_trip d :
  occurs (py "%20") d = false ->
  occurs (py "/dashboard-oeuvres/") d = false ->
  DashboardOeuvres.selected_domain (DashboardOeuvres.domain_path d) = Ok (Some d).
Proof.
  intros Hpct Hsep. unfold DashboardOeuvres.selected_domain.
  unfold DashboardOeuvres.domain_path. cbv zeta.
  set (e := replace 32 (py "%20") d).
  rewrite startswith_app.
  assert (bool_decide (py "/dashboard-oeuvres/" ++ e = py "/dashboard-oeuvres")
          = false) as ->.
  { apply bool_decide_eq_false. intros Heq.
    apply (f_equal length) in Heq. rewrite length_app in Heq.
    vm_compute in Heq. lia. }
  cbn [andb negb].
  change (py "/dashboard-oeuvres/") with (47 :: py "dashboard-oeuvres/").
  rewrite split_str_sep_app.
  rewrite split_str_no_occurrence.
  - assert (getitem [[]; e] 1 = Ok e) as -> by reflexivity.
    unfold mbind, result_bind, e. by rewrite decode_encode.
  - apply occurs_encoded; [repeat constructor; done|done..].
Qed.

(** X13. Neither dashboard raises when it reads the domain off a path: the
    index [1] after the split is covered by the [startswith] test. *)
Theorem selected_domain_returns pathname :
  (exists v, DashboardOeuvres.selected_domain pathname = Ok v)
  /\ (exists v, DashApp.selected_view pathname = Ok v).
Proof.
  split.
  - unfold DashboardOeuvres.selected_domain.
    destruct (startswith (py "/dashboard-oeuvres/") pathname) eqn:Hs;
      [|by eexists].
    destruct (negb _); [|by eexists]. cbn [andb].
    change (py "/dashboard-oeuvres/") with (47 :: py "dashboard-oeuvres/") in *.
    destruct (getitem_split_prefix _ _ _ Hs) as [piece ->]. by eexists.
  - unfold DashApp.selected_view. case_bool_decide; [by eexists|].
    destruct (startswith (py "/domaine/") pathname) eqn:Hs; [|by eexists].
    change (py "/domaine/") with (47 :: py "domaine/") in *.
    destruct (getitem_split_prefix _ _ _ Hs) as [piece ->]. by eexists.
Qed.

(** X14. In the stand-alone dashboard the path built for a domain selects
    that domain again when its name does not hold ["/domaine/"]. *)
Theorem dash_app_domain_path_round_trip d :
  occurs (py "/domaine/") d = false ->
  DashApp.selected_view (DashApp.domain_path d) = Ok (DashApp.Domain d).
Proof.
  intros Hsep. unfold DashApp.selected_view, DashApp.domain_path.
  rewrite bool_decide_eq_false_2 by done.
  rewrite startswith_app.
  change (py "/domaine/") with (47 :: py "domaine/").
  rewrite split_str_sep_app, split_str_no_occurrence by done. done.
Qed.

(** X15. Routing: the path of every domain button is served with the
    dashboard's layout, and a path that is not served is sent to a path
    that is, so there is at most one redirection. *)
Theorem display_page_settles pathname :
  (forall d, Main.display_page (DashboardOeuvres.domain_path d)
             = Main.DashboardOeuvresLayout)
  /\ match Main.display_page pathname with
     | Main.Location target =>
         Main.display_page target = Main.AccueilLayout
     | _ => True
     end.
Proof.
  split.
  - intros d. unfold Main.display_page, DashboardOeuvres.domain_path. cbv zeta.
    by rewrite startswith_app, orb_true_r.
  - unfold Main.display_page.
    destruct (_ || _); [done|]. by repeat case_bool_decide.
Qed.

End Paths.

Lemma dashboard_domain_path_round_trip_witness :
  occurs (py "%20") (py "arts graphiques") = false
  /\ occurs (py "/dashboard-oeuvres/") (py "arts graphiques") = false
  /\ DashboardOeuvres.domain_path (py "arts graphiques")
     = py "/dashboard-oeuvres/arts%20graphiques"
  /\ DashboardOeuvres.selected_domain
       (DashboardOeuvres.domain_path (py "arts graphiques"))
     = Ok (Some (py "arts graphiques")).
Proof.
  split; [reflexivity|]. split; [reflexivity|]. split; [reflexivity|].
  apply dashboard_domain_path_round_trip; reflexivity.
Defined.

Lemma dash_app_domain_path_round_trip_witness :
  occurs (py "/domaine/") (py "peinture") = false
  /\ DashApp.selected_view (DashApp.domain_path (py "peinture"))
     = Ok (DashApp.Domain (py "peinture")).
Proof.
  split; [reflexivity|]. apply dash_app_domain_path_round_trip; reflexivity.
Defined.

(** Without the provisos the domain does not come back: a name with
    ["%20"] in it is decoded to one with a space. *)
Example dashboard_domain_path_percent :
  DashboardOeuvres.selected_domain (DashboardOeuvres.domain_path (py "a%20b"))
  = Ok (Some (py "a b")).
Proof. reflexivity. Qed.

(** ** Ranges, slider marks and century bins *)

Section Ranges.

Open Scope Z_scope.

Implicit Types (a b s y : Z) (years : list Z).

(** [range] with a positive step: its items in order. *)
Lemma py_range_pos a b s :
  0 < s ->
  py_range a b s
  = Ok (List.map (fun i => a + Z.of_nat i * s)
          (seq 0 (Z.to_nat ((b - a + s - 1) / s)))).
Proof.
  intros Hs. unfold py_range.
  destruct (Z.eqb_spec s 0); [lia|]. by destruct (Z.ltb_spec 0 s); [|lia].
Qed.

Lemma elem_of_range_items a s n y :
  0 < s ->
  y ∈ List.map (fun i => a + Z.of_nat i * s) (seq 0 n)
  <-> a <= y < a + Z.of_nat n * s /\ (y - a) mod s = 0.
Proof.
  intros Hs. rewrite list_elem_of_In, List.in_map_iff. split.
  - intros (i & <- & Hi%List.in_seq). split; [nia|].
    replace (a + Z.of_nat i * s - a) with (Z.of_nat i * s) by lia.
    apply Z_mod_mult.
  - intros [[Hlo Hhi] Hmod].
    exists (Z.to_nat ((y - a) / s)).
    assert (y - a = s * ((y - a) / s)) as Hdiv.
    { rewrite (Z_div_mod_eq_full (y - a) s) at 1. lia. }
    assert (0 <= (y - a) / s) by (apply Z.div_pos; lia).
    split; [rewrite Z2Nat.id by done; lia|].
    apply List.in_seq. split; [lia|]. simpl. apply Nat2Z.inj_lt.
    rewrite Z2Nat.id by done. nia.
Qed.

Lemma elem_of_range_items_inv a s n y :
  y ∈ List.map (fun i => a + Z.of_nat i * s) (seq 0 n) ->
  exists i : nat, (i < n)%nat /\ y = a + Z.of_nat i * s.
Proof.
  rewrite list_elem_of_In, List.in_map_iff.
  intros (i & <- & Hi%List.in_seq). exists i. split; [lia|done].
Qed.

Lemma lookup_range_items a s n (i : nat) :
  (i < n)%nat ->
  List.map (fun i => a + Z.of_nat i * s) (seq 0 n) !! i = Some (a + Z.of_nat i * s).
Proof.
  intros Hi. change (@List.map) with (@fmap list _).
  rewrite list_lookup_fmap, lookup_seq_lt by done. done.
Qed.

(** The dictionary of marks has the years as keys, each with its own
    name. *)
Lemma marks_of_lookup years y :
  marks_of years !! y = if decide (y ∈ years) then Some (str_int y) else None.
Proof.
  unfold marks_of.
  assert (forall m : gmap Z (list N),
    fold_left (fun marks year => <[year := str_int year]> marks) years m !! y
    = if decide (y ∈ years) then Some (str_int y) else m !! y) as H.
  { induction years as [|x l IH]; intros m; cbn [fold_left].
    - case_decide as H0; [by apply elem_of_nil in H0|done].
    - rewrite IH. destruct (decide (y ∈ l)) as [Hl|Hl].
      + case_decide as H0; [done|]. exfalso. apply H0. by right.
      + destruct (decide (y = x)) as [->|Hne].
        * rewrite lookup_insert_eq. case_decide as H0; [done|].
          exfalso. apply H0. by left.
        * rewrite lookup_insert_ne by done. case_decide as H0; [|done].
          by apply elem_of_cons in H0 as [?|?]. }
  rewrite H. by destruct (decide _).
Qed.

Lemma marks_of_size years : (size (marks_of years) <= length years)%nat.
Proof.
  unfold marks_of.
  assert (forall m : gmap Z (list N),
    (size (fold_left (fun marks year => <[year := str_int year]> marks) years m)
     <= size m + length years)%nat) as H.
  { induction years as [|x l IH]; intros m; cbn [fold_left length]; [lia|].
    etrans; [apply IH|]. rewrite map_size_insert.
    cbn [length]. destruct (m !! x); unfold id; lia. }
  specialize (H ∅). by rewrite map_size_empty in H.
Qed.

End Ranges.

Section Sliders.

Open Scope Z_scope.

Implicit Types (a b s y span : Z).

Lemma floordiv_ok a b : b <> 0 -> floordiv a b = Ok (a / b).
Proof. intros Hb. unfold floordiv. by destruct (Z.eqb_spec b 0). Qed.

(** The arithmetic of lines 400-414: no division by zero, a positive step
    between marks, and at most fourteen steps across the span. *)
Lemma slider_arithmetic span :
  let step := (if span <=? 100 then 1
               else if span <=? 500 then 10
               else if span <=? 2000 then 50
               else 100) in
  let num_marks := Z.min 10 (Z.max 2 (span / step + 1)) in
  let step_marks := (if 0 <? span then Z.max 200 (span / (num_marks - 1)) else 1) in
  (step = 1 \/ step = 10 \/ step = 50 \/ step = 100)
  /\ num_marks - 1 <> 0
  /\ 0 < step_marks / step * step
  /\ (0 < span -> span < 14 * (step_marks / step * step)).
Proof.
  intros step num_marks step_marks.
  assert (2 <= num_marks <= 10) as Hnum by (unfold num_marks; lia).
  destruct (Z.leb_spec span 0) as [Hneg|Hpos].
  - assert (step = 1) as Hs.
    { unfold step. by destruct (Z.leb_spec span 100); [|lia]. }
    assert (step_marks = 1) as Hsm.
    { unfold step_marks. by destruct (Z.ltb_spec 0 span); [lia|]. }
    rewrite Hs, Hsm. split_and!; [by left|lia|done|lia].
  - assert (step_marks = Z.max 200 (span / (num_marks - 1))) as Hsm.
    { unfold step_marks. by destruct (Z.ltb_spec 0 span); [|lia]. }
    assert (200 <= step_marks) as H200 by lia.
    destruct (Z.leb_spec span 2000) as [Hsmall|Hbig].
    + assert ((step = 1 \/ step = 10 \/ step = 50) /\ 200 <= step_marks / step * step)
        as [Hs Hlow].
      { unfold step.
        destruct (Z.leb_spec span 100); [split; [by left|]|].
        { rewrite Z.div_1_r. lia. }
        destruct (Z.leb_spec span 500); [split; [by right; left|]|].
        { pose proof (Z.div_le_mono 200 step_marks 10 ltac:(lia) H200) as Hd.
          change (200 / 10) with 20 in Hd. lia. }
        destruct (Z.leb_spec span 2000); [split; [by right; right|]|lia].
        pose proof (Z.div_le_mono 200 step_marks 50 ltac:(lia) H200) as Hd.
        change (200 / 50) with 4 in Hd. lia. }
      split_and!; [naive_solver|lia|lia|lia].
    + assert (step = 100) as Hs.
      { unfold step. destruct (Z.leb_spec span 100); [lia|].
        destruct (Z.leb_spec span 500); [lia|].
        by destruct (Z.leb_spec span 2000); [lia|]. }
      assert (num_marks = 10) as Hn.
      { unfold num_marks. rewrite Hs.
        pose proof (Z.div_le_mono 2000 span 100 ltac:(lia) ltac:(lia)) as Hd.
        change (2000 / 100) with 20 in Hd. lia. }
      rewrite Hs. rewrite Hn in Hsm. change (10 - 1) with 9 in Hsm.
      assert (200 <= step_marks / 100 * 100
              /\ span < 14 * (step_marks / 100 * 100)) as [Hlow Hup].
      { pose proof (Z.div_mod span 9 ltac:(lia)) as Hq.
        pose proof (Z.mod_pos_bound span 9 ltac:(lia)) as Hr.
        pose proof (Z.div_mod step_marks 100 ltac:(lia)) as Hq2.
        pose proof (Z.mod_pos_bound step_marks 100 ltac:(lia)) as Hr2.
        pose proof (Z.div_le_mono 200 step_marks 100 ltac:(lia) H200) as Hd.
        change (200 / 100) with 2 in Hd. lia. }
      split_and!; [by repeat right|lia|lia|lia].
Qed.

(** X16. [update_slider] of the dashboard never raises (no division by
    zero, no zero step for [range]); its step is 1, 10, 50 or 100. With
    [min_raw] the value of [int(np.percentile(..., 5))] and [max_date] that
    of [int(subset[...].max())], the lower bound is the greatest multiple of
    100 not above [min_raw] and the upper bound is the smaller of [max_date]
    and 2025. Both bounds carry a mark and every mark is named after its
    year; when the lower bound is not above the upper one every mark lies
    between them, and when it is above (dates beyond 2025) the two bounds are
    the only marks. There are at most fifteen marks. *)
Theorem dashboard_slider_marks (subset : option (Z * Z)) :
  exists marks min_year max_year step,
    DashboardOeuvres.update_slider subset
    = Ok (marks, min_year, max_year, [min_year; max_year], step)
    /\ (step = 1 \/ step = 10 \/ step = 50 \/ step = 100)
    /\ match subset with
       | None => min_year = 0 /\ max_year = 2025
       | Some (min_raw, max_date) =>
           min_year mod 100 = 0 /\ min_year <= min_raw < min_year + 100
           /\ max_year = Z.min max_date 2025
       end
    /\ marks !! min_year = Some (str_int min_year)
    /\ marks !! max_year = Some (str_int max_year)
    /\ (forall y label, marks !! y = Some label ->
          label = str_int y
          /\ (min_year <= max_year -> min_year <= y <= max_year)
          /\ (max_year < min_year -> y = min_year \/ y = max_year))
    /\ (size marks <= 15)%nat.
Proof.
  unfold DashboardOeuvres.update_slider.
  set (bounds := match subset with
                 | Some (min_raw, max_date) => (min_raw / 100 * 100, Z.min max_date 2025)
                 | None => (0, 2025)
                 end).
  assert (match subset with
          | None => bounds.1 = 0 /\ bounds.2 = 2025
          | Some (min_raw, max_date) =>
              bounds.1 mod 100 = 0 /\ bounds.1 <= min_raw < bounds.1 + 100
              /\ bounds.2 = Z.min max_date 2025
          end) as Hbounds.
  { unfold bounds. destruct subset as [[min_raw max_date]|]; [|done]. simpl.
    pose proof (Z.div_mod min_raw 100 ltac:(lia)) as Hq.
    pose proof (Z.mod_pos_bound min_raw 100 ltac:(lia)) as Hr.
    split_and!; [apply Z_mod_mult|lia|lia|done]. }
  destruct bounds as [min_year max_year]. simpl in Hbounds.
  pose proof (slider_arithmetic (max_year - min_year)) as Harith.
  cbv zeta in Harith.
  set (span := max_year - min_year) in *.
  set (step := if span <=? 100 then 1
               else if span <=? 500 then 10
               else if span <=? 2000 then 50 else 100) in *.
  destruct Harith as (Hstep & Hnum & Hsm & Hfew).
  rewrite (floordiv_ok span step) by lia.
  cbn [mbind result_bind].
  set (num_marks := Z.min 10 (Z.max 2 (span / step + 1))) in *.
  assert ((if 0 <? span
           then (q ← floordiv span (num_marks - 1); Ok (Z.max 200 q))
           else Ok 1)
          = Ok (if 0 <? span then Z.max 200 (span / (num_marks - 1)) else 1)) as ->.
  { destruct (0 <? span); [|done]. by rewrite floordiv_ok. }
  set (sm0 := if 0 <? span then Z.max 200 (span / (num_marks - 1)) else 1) in *.
  cbn [mbind result_bind].
  assert ((0 <? step) = true) as -> by (apply Z.ltb_lt; lia).
  rewrite (floordiv_ok sm0 step) by lia. cbn [mbind result_bind].
  set (sm := sm0 / step * step) in *.
  rewrite py_range_pos by done. cbn [mbind result_bind].
  set (n := Z.to_nat ((max_year + 1 - min_year + sm - 1) / sm)).
  set (years := List.map (fun i => min_year + Z.of_nat i * sm) (seq 0 n)).
  eexists _, min_year, max_year, step. split; [done|].
  split; [done|]. split; [exact Hbounds|].
  assert ((0 <= span -> Z.of_nat n * sm <= span + sm) /\ (n <= 14)%nat)
    as [Hn Hn14].
  { unfold n. replace (max_year + 1 - min_year + sm - 1) with (span + sm)
      by (unfold span; lia).
    destruct (Z.le_gt_cases (span + sm) (-1)) as [Hneg|Hpos].
    - assert ((span + sm) / sm < 0) by (apply Z.div_lt_upper_bound; lia).
      rewrite Z2Nat.nonpos by lia. lia.
    - pose proof (Z.div_mod (span + sm) sm ltac:(lia)) as Hq.
      pose proof (Z.mod_pos_bound (span + sm) sm Hsm) as Hr.
      assert (0 <= (span + sm) / sm) by (apply Z.div_pos; lia).
      rewrite Z2Nat.id by done. split; [nia|].
      apply Nat2Z.inj_le. rewrite Z2Nat.id by done.
      destruct (Z.le_gt_cases span 0) as [H0|H1]; [nia|].
      specialize (Hfew H1). nia. }
  assert (max_year < min_year -> n = 0%nat) as Hn0.
  { intros Hlt. assert (span < 0) as Hspan by (unfold span; lia).
    unfold n, sm, sm0, step.
    destruct (Z.ltb_spec 0 span); [lia|].
    destruct (Z.leb_spec span 100); [|lia].
    change (1 / 1 * 1) with 1. rewrite Z.div_1_r.
    apply Z2Nat.nonpos. unfold span in Hspan. lia. }
  split_and!.
  - destruct (decide (min_year = max_year)) as [->|Hne].
    + by rewrite lookup_insert_eq.
    + by rewrite lookup_insert_ne, lookup_insert_eq.
  - by rewrite lookup_insert_eq.
  - intros y label. rewrite !lookup_insert. repeat case_decide; subst.
    + intros [= <-]. split_and!; [done|lia|by right].
    + intros [= <-]. split_and!; [done|lia|by left].
    + rewrite marks_of_lookup. case_decide as Hy; [|done].
      intros [= <-]. split_and!; [done| |].
      * intros Hle. apply elem_of_range_items_inv in Hy as (i & Hi & ->).
        unfold span in Hn. nia.
      * intros Hlt. exfalso. unfold years in Hy. rewrite (Hn0 Hlt) in Hy.
        by apply elem_of_nil in Hy.
  - etrans; [apply Nat.eq_le_incl, map_size_insert|].
    assert (size (<[min_year:=str_int min_year]> (marks_of years)) <= 14
            \/ n = 14)%nat as Hcase.
    { rewrite map_size_insert. pose proof (marks_of_size years) as Hsz.
      unfold years in Hsz at 2. rewrite length_map, length_seq in Hsz.
      destruct (marks_of years !! min_year) eqn:E; unfold id; lia. }
    destruct Hcase as [Hle|H14].
    + destruct (_ !! max_year); unfold id; lia.
    + assert (marks_of years !! min_year = Some (str_int min_year)) as Hmin.
      { rewrite marks_of_lookup, decide_True; [done|].
        apply elem_of_range_items; [done|]. rewrite H14.
        replace (min_year - min_year) with 0 by lia. split; [lia|done]. }
      pose proof (marks_of_size years) as Hsz.
      unfold years in Hsz at 2. rewrite length_map, length_seq in Hsz.
      rewrite map_size_insert, Hmin.
      destruct (_ !! max_year); unfold id; lia.
Qed.

(** Dates beyond 2025 only: the upper bound is capped below the lower one
    and the two bounds are the marks. A negative percentile that [int] has
    brought to -2700 stays at -2700; -2701 goes down to -2800. *)
Example dashboard_slider_edge_cases :
  (exists marks,
     DashboardOeuvres.update_slider (Some (2100, 2100))
     = Ok (marks, 2100, 2025, [2100; 2025], 1)
     /\ marks !! 2100 = Some (py "2100")
     /\ marks !! 2025 = Some (py "2025")
     /\ size marks = 2%nat)
  /\ (exists marks step,
        DashboardOeuvres.update_slider (Some (-2700, 1900))
        = Ok (marks, -2700, 1900, [-2700; 1900], step))
  /\ (exists marks step,
        DashboardOeuvres.update_slider (Some (-2701, 1900))
        = Ok (marks, -2800, 1900, [-2800; 1900], step)).
Proof.
  split_and!.
  - eexists. split; [vm_compute; reflexivity|]. vm_compute. done.
  - eexists _, _. vm_compute. reflexivity.
  - eexists _, _. vm_compute. reflexivity.
Qed.

End Sliders.

Section Bins.

Open Scope Z_scope.

Implicit Types (y : Z).

(** X17. The slider of the stand-alone dashboard has a mark at each of its
    two bounds and nowhere else (no mark at all when the upper bound is
    below the lower one); [range] always gets a step of at least 1. *)
Theorem dash_app_slider_marks (min_year max_year : Z) :
  exists marks,
    DashApp.update_slider min_year max_year
    = Ok (marks, min_year, max_year, [min_year; max_year])
    /\ forall y,
         marks !! y
         = if decide (min_year <= max_year /\ (y = min_year \/ y = max_year))
           then Some (str_int y) else None.
Proof.
  unfold DashApp.update_slider.
  set (step := Z.max 1 (max_year - min_year)).
  rewrite py_range_pos by lia. cbn [mbind result_bind].
  eexists. split; [done|]. intros y. rewrite marks_of_lookup.
  assert (y ∈ List.map (fun i => min_year + Z.of_nat i * step)
                (seq 0 (Z.to_nat ((max_year + 1 - min_year + step - 1) / step)))
          <-> min_year <= max_year /\ (y = min_year \/ y = max_year)) as Hiff.
  { destruct (Z.lt_trichotomy min_year max_year) as [Hlt|[->|Hgt]].
    - assert (step = max_year - min_year) as Hs by lia.
      assert ((max_year + 1 - min_year + step - 1) / step = 2) as ->.
      { replace (max_year + 1 - min_year + step - 1) with (2 * step) by lia.
        apply Z_div_mult. lia. }
      simpl. rewrite !elem_of_cons, elem_of_nil. lia.
    - assert (step = 1) as -> by lia.
      replace (max_year + 1 - max_year + 1 - 1) with 1 by lia.
      simpl. rewrite !elem_of_cons, elem_of_nil. lia.
    - assert (step = 1) as -> by lia. rewrite Z.div_1_r.
      rewrite Z2Nat.nonpos by lia. simpl. rewrite elem_of_nil. lia. }
  repeat case_decide; tauto.
Qed.

Lemma removelast_map {A B} (f : A -> B) (l : list A) :
  removelast (List.map f l) = List.map f (removelast l).
Proof.
  induction l as [|a l IH]; [done|]. destruct l as [|b l]; [done|].
  change (removelast (List.map f (a :: b :: l)))
    with (f a :: removelast (List.map f (b :: l))).
  by rewrite IH.
Qed.

Lemma removelast_seq (a n : nat) : removelast (seq a (S n)) = seq a n.
Proof.
  revert a. induction n as [|n IH]; intros a; [done|].
  change (removelast (seq a (S (S n)))) with (a :: removelast (seq (S a) (S n))).
  by rewrite IH.
Qed.

(** X18. For whole-number dates from [min_year] to [max_year], the century
    bins of the dashboard are one more than there are labels, and every date
    in between falls between two consecutive edges, 100 apart, the lower one
    being the date rounded down to a hundred; the label at that place names
    the century from its first to its last year. *)
Theorem dashboard_century_bins_cover (min_year max_year : Z) :
  min_year <= max_year ->
  exists bins labels,
    DashboardOeuvres.century_bins min_year max_year = Ok (bins, labels)
    /\ length bins = S (length labels)
    /\ (1 <= length labels)%nat
    /\ forall y, min_year <= y <= max_year ->
         exists (i : nat) (b : Z),
           bins !! i = Some b /\ bins !! S i = Some (b + 100)
           /\ b <= y < b + 100 /\ b = y / 100 * 100
           /\ labels !! i = Some (str_int b ++ py "-" ++ str_int (b + 99)).
Proof.
  intros Hle. unfold DashboardOeuvres.century_bins. cbv zeta.
  rewrite py_range_pos by lia. cbn [mbind result_bind].
  set (lo := min_year / 100). set (hi := max_year / 100).
  assert (lo <= hi) as Hlohi by (by apply Z.div_le_mono).
  assert (((hi + 1) * 100 + 100 - lo * 100 + 100 - 1) / 100 = hi - lo + 2) as ->.
  { replace ((hi + 1) * 100 + 100 - lo * 100 + 100 - 1)
      with (99 + (hi - lo + 2) * 100) by lia.
    by rewrite Z.div_add. }
  replace (Z.to_nat (hi - lo + 2)) with (S (Z.to_nat (hi - lo + 1))) by lia.
  set (n := Z.to_nat (hi - lo + 1)).
  eexists _, _. split; [done|].
  rewrite removelast_map, removelast_seq, !length_map, !length_seq.
  split; [done|]. split; [lia|]. intros y Hy.
  assert (lo <= y / 100 <= hi) as Hq
    by (split; apply Z.div_le_mono; lia).
  pose proof (Z.div_mod y 100 ltac:(lia)) as Hdm.
  pose proof (Z.mod_pos_bound y 100 ltac:(lia)) as Hr.
  set (i := Z.to_nat (y / 100 - lo)).
  assert (lo * 100 + Z.of_nat i * 100 = y / 100 * 100) as Hb by lia.
  exists i, (y / 100 * 100). split_and!.
  - rewrite lookup_range_items by lia. by rewrite Hb.
  - rewrite lookup_range_items by lia. f_equal. lia.
  - lia.
  - lia.
  - done.
  - change (@List.map) with (@fmap list _).
    rewrite !list_lookup_fmap, lookup_seq_lt by lia. simpl. by rewrite Hb.
Qed.

(** X19. In the stand-alone dashboard the bins stop short: for whole-number
    dates from [min_date] to [max_date], a date falls between two
    consecutive edges exactly when it is below [max_date] or [max_date] is
    not a multiple of 100. *)
Theorem dash_app_century_bins_cover (min_date max_date y : Z) :
  min_date <= y <= max_date ->
  exists bins labels,
    DashApp.century_bins min_date max_date = Ok (bins, labels)
    /\ ((exists (i : nat) (b : Z),
           bins !! i = Some b /\ bins !! S i = Some (b + 100) /\ b <= y < b + 100)
        <-> y < max_date \/ max_date mod 100 <> 0).
Proof.
  intros Hy. unfold DashApp.century_bins. cbv zeta.
  rewrite py_range_pos by lia. cbn [mbind result_bind].
  eexists _, _. split; [done|].
  set (lo := min_date / 100).
  set (n := Z.to_nat ((max_date + 100 - lo * 100 + 100 - 1) / 100)).
  pose proof (Z.div_mod y 100 ltac:(lia)) as Hdy.
  pose proof (Z.mod_pos_bound y 100 ltac:(lia)) as Hry.
  pose proof (Z.div_mod max_date 100 ltac:(lia)) as Hdm.
  pose proof (Z.mod_pos_bound max_date 100 ltac:(lia)) as Hrm.
  assert (lo <= y / 100) as Hlo by (apply Z.div_le_mono; lia).
  assert (Z.of_nat n = (max_date + 199) / 100 - lo) as Hn.
  { unfold n.
    replace (max_date + 100 - lo * 100 + 100 - 1)
      with (max_date + 199 + (- lo) * 100) by lia.
    rewrite Z.div_add by lia.
    assert (y / 100 <= (max_date + 199) / 100) by (apply Z.div_le_mono; lia).
    lia. }
  pose proof (Z.div_mod (max_date + 199) 100 ltac:(lia)) as Hd199.
  pose proof (Z.mod_pos_bound (max_date + 199) 100 ltac:(lia)) as Hr199.
  split.
  - intros (i & b & Hi & HSi & Hb).
    apply lookup_lt_Some in HSi as Hlen. rewrite length_map, length_seq in Hlen.
    rewrite lookup_range_items in Hi by lia. injection Hi as <-.
    lia.
  - intros Hcov. exists (Z.to_nat (y / 100 - lo)), (y / 100 * 100).
    assert (S (Z.to_nat (y / 100 - lo)) < n)%nat as Hlt by lia.
    rewrite !lookup_range_items by lia. split_and!; [f_equal; lia..|lia].
Qed.

End Bins.

Lemma dashboard_century_bins_cover_witness :
  (1850 <= 1999)%Z
  /\ exists bins labels,
      DashboardOeuvres.century_bins 1850 1999 = Ok (bins, labels)
      /\ length bins = S (length labels)
      /\ (1 <= length labels)%nat
      /\ forall y, (1850 <= y <= 1999)%Z ->
           exists (i : nat) (b : Z),
             bins !! i = Some b /\ bins !! S i = Some (b + 100)%Z
             /\ (b <= y < b + 100)%Z /\ b = (y / 100 * 100)%Z
             /\ labels !! i = Some (str_int b ++ py "-" ++ str_int (b + 99)).
Proof.
  split; [lia|]. apply dashboard_century_bins_cover. lia.
Defined.

Lemma dash_app_century_bins_cover_witness :
  (1900 <= 2000 <= 2000)%Z
  /\ exists bins labels,
      DashApp.century_bins 1900 2000 = Ok (bins, labels)
      /\ ((exists (i : nat) (b : Z),
             bins !! i = Some b /\ bins !! S i = Some (b + 100)%Z
             /\ (b <= 2000 < b + 100)%Z)
          <-> (2000 < 2000 \/ 2000 mod 100 <> 0)%Z).
Proof.
  split; [lia|]. apply dash_app_century_bins_cover. lia.
Defined.

(** The bins of the two dashboards for dates from 1850 to 2000. *)
Example century_bins_1850_2000 :
  DashboardOeuvres.century_bins 1850 2000
  = Ok ([1800; 1900; 2000; 2100]%Z,
        [py "1800-1899"; py "1900-1999"; py "2000-2099"])
  /\ DashApp.century_bins 1850 2000
     = Ok ([1800; 1900; 2000]%Z, [py "1800-1900"; py "1900-2000"]).
Proof. split; reflexivity. Qed.
